(** * Information-protection: the toy Feistel cipher (lab2) and the
      GOST 28147-89 file cipher (lab3)

    A shallow embedding of [lab2/main.py] and [lab3/main.py].  Python
    integers are [Z]; [bytes] objects are lists of [Byte.byte]; a raised
    exception is the [Raise] branch of [result]. *)

From Stdlib Require Import ZArith List Lia Bool Permutation.
From Stdlib Require Strings.String Strings.Byte.
Import ListNotations.
Open Scope Z_scope.

(** ** The fragment of Python both programs rely on *)
Module Py.

(** The exceptions that the modelled code can raise. *)
Inductive exn : Set :=
| IndexError
| ValueError
| ZeroDivisionError
| StructError
| UnicodeEncodeError
| UnicodeDecodeError
| FileNotFoundError.

Inductive result (A : Type) : Type :=
| Ok (a : A)
| Raise (e : exn).
Arguments Ok {A} a.
Arguments Raise {A} e.

Definition bind {A B} (m : result A) (k : A -> result B) : result B :=
  match m with
  | Ok a => k a
  | Raise e => Raise e
  end.

Notation "x <- m ;; k" := (bind m (fun x => k))
  (at level 61, m at next level, right associativity).
Notation "' pat <- m ;; k" := (bind m (fun x => match x with pat => k end))
  (at level 61, pat pattern, m at next level, right associativity).

(** A [for] loop whose body may raise: the first exception leaves the loop. *)
Fixpoint for_each {S I} (body : S -> I -> result S) (items : list I) (s : S)
  : result S :=
  match items with
  | [] => Ok s
  | i :: rest => bind (body s i) (for_each body rest)
  end.

(** A list comprehension (or generator consumed in order) whose element
    expression may raise. *)
Fixpoint map_each {A B} (f : A -> result B) (items : list A) : result (list B) :=
  match items with
  | [] => Ok []
  | a :: rest =>
      bind (f a) (fun b => bind (map_each f rest) (fun bs => Ok (b :: bs)))
  end.

Definition len {A} (l : list A) : Z := Z.of_nat (length l).

(** [range(n)] and [range(n - 1, -1, -1)]. *)
Definition range (n : Z) : list Z := map Z.of_nat (seq 0 (Z.to_nat n)).
Definition range_down (n : Z) : list Z := rev (range n).

(** [range(0, n, step)] for [0 <= n] and a nonzero [step]: empty when
    [step] is negative; [fuel] bounds the number of elements and
    [range_step] supplies enough of it. *)
Fixpoint range_from (fuel : nat) (i n step : Z) : list Z :=
  match fuel with
  | O => []
  | S fuel' => if i <? n then i :: range_from fuel' (i + step) n step else []
  end.
Definition range_step (n step : Z) : list Z :=
  if step <=? 0 then [] else range_from (Z.to_nat n) 0 n step.

(** [a >> n]: a negative shift count raises. *)
Definition rshift (a n : Z) : result Z :=
  if n <? 0 then Raise ValueError else Ok (Z.shiftr a n).

(** Slice bounds: a negative bound counts from the end, and every bound
    is clamped to the sequence. *)
Definition clamp (n i : Z) : nat :=
  Z.to_nat (if i <? 0 then Z.max 0 (i + n) else Z.min i n).

(** [l[i:]], [l[:j]] and [l[i:j]]. *)
Definition slice_from {A} (l : list A) (i : Z) : list A :=
  skipn (clamp (len l) i) l.
Definition slice_to {A} (l : list A) (j : Z) : list A :=
  firstn (clamp (len l) j) l.
Definition slice {A} (l : list A) (i j : Z) : list A :=
  firstn (clamp (len l) j - clamp (len l) i) (skipn (clamp (len l) i) l).

(** [l[i]]: a negative index counts from the end; out of range raises. *)
Definition item {A} (l : list A) (i : Z) : result A :=
  let k := if i <? 0 then i + len l else i in
  if k <? 0 then Raise IndexError
  else match nth_error l (Z.to_nat k) with
       | Some a => Ok a
       | None => Raise IndexError
       end.

(** [l * n] for a list [l]: empty when [n <= 0]. *)
Definition list_mul {A} (l : list A) (n : Z) : list A :=
  concat (repeat l (Z.to_nat n)).

(** *** [bytes] *)
Definition bytes : Type := list Byte.byte.

(** Iterating over or indexing a [bytes] object yields ints in [0, 256). *)
Definition int_of_byte (b : Byte.byte) : Z := Z.of_N (Byte.to_N b).

(** The byte holding [z mod 256]. *)
Definition byte_of_int (z : Z) : Byte.byte :=
  match Byte.of_N (Z.to_N (z mod 256)) with
  | Some b => b
  | None => Byte.x00
  end.

(** [bytes(ints)]: every int must be in [range(256)]. *)
Definition bytes_of_ints (ints : list Z) : result bytes :=
  map_each (fun z => if (0 <=? z) && (z <? 256)
                     then Ok (byte_of_int z) else Raise ValueError) ints.

(** *** [struct] *)

(** An unsigned integer read from its bytes, least significant first. *)
Fixpoint le_int (bs : bytes) : Z :=
  match bs with
  | [] => 0
  | b :: rest => int_of_byte b + 256 * le_int rest
  end.

(** The [n] low bytes of [z], least significant first. *)
Fixpoint le_bytes (n : nat) (z : Z) : bytes :=
  match n with
  | O => []
  | S n' => byte_of_int z :: le_bytes n' (z / 256)
  end.

(** Consecutive [size]-byte groups; [count] of them. *)
Fixpoint groups (count size : nat) (bs : bytes) : list bytes :=
  match count with
  | O => []
  | S count' => firstn size bs :: groups count' size (skipn size bs)
  end.

(** [struct.unpack('<nI', data)]: [data] must be exactly [4 * n] bytes. *)
Definition unpack_le32 (n : nat) (data : bytes) : result (list Z) :=
  if Nat.eqb (length data) (4 * n)
  then Ok (map le_int (groups n 4 data))
  else Raise StructError.

(** [struct.pack('<nI', *words)]: every word must fit 32 unsigned bits. *)
Definition pack_le32 (words : list Z) : result bytes :=
  bind (map_each (fun w => if (0 <=? w) && (w <? 2 ^ 32)
                           then Ok (le_bytes 4 w) else Raise StructError) words)
       (fun gs => Ok (concat gs)).

(** [struct.unpack('>Q', data)[0]]: [data] must be exactly 8 bytes. *)
Definition unpack_be64 (data : bytes) : result Z :=
  if Nat.eqb (length data) 8
  then Ok (le_int (rev data))
  else Raise StructError.

(** [struct.pack('>Q', word)]: [word] must fit 64 unsigned bits. *)
Definition pack_be64 (word : Z) : result bytes :=
  if (0 <=? word) && (word <? 2 ^ 64)
  then Ok (rev (le_bytes 8 word))
  else Raise StructError.

(** *** [str] and UTF-8

    A [str] is its sequence of code points, each in [0, 0x10FFFF]. *)
Definition str : Type := list Z.

Definition continuation (b : Z) : bool := (128 <=? b) && (b <=? 191).

(** [s.encode('utf-8')]: surrogates cannot be encoded.  (Values that are
    not code points are rejected the same way; no [str] holds one.) *)
Definition encode_point (c : Z) : result (list Z) :=
  if (0 <=? c) && (c <? 128) then Ok [c]
  else if (128 <=? c) && (c <? 2048) then Ok [192 + c / 64; 128 + c mod 64]
  else if (2048 <=? c) && (c <? 65536) then
    if (55296 <=? c) && (c <=? 57343) then Raise UnicodeEncodeError
    else Ok [224 + c / 4096; 128 + (c / 64) mod 64; 128 + c mod 64]
  else if (65536 <=? c) && (c <=? 1114111) then
    Ok [240 + c / 262144; 128 + (c / 4096) mod 64;
        128 + (c / 64) mod 64; 128 + c mod 64]
  else Raise UnicodeEncodeError.

Definition utf8_encode (s : str) : result bytes :=
  pts <- map_each encode_point s ;;
  Ok (map byte_of_int (concat pts)).

(** [b.decode('utf-8')] on the ints of [b]: strict, so overlong forms,
    surrogates, values above 0x10FFFF, stray continuation bytes and
    truncated sequences all raise. *)
Fixpoint decode_ints (bs : list Z) : result str :=
  match bs with
  | [] => Ok []
  | b0 :: r0 =>
      if b0 <? 128 then
        s <- decode_ints r0 ;; Ok (b0 :: s)
      else if (194 <=? b0) && (b0 <=? 223) then
        match r0 with
        | b1 :: r1 =>
            if continuation b1 then
              s <- decode_ints r1 ;; Ok ((b0 - 192) * 64 + (b1 - 128) :: s)
            else Raise UnicodeDecodeError
        | _ => Raise UnicodeDecodeError
        end
      else if (224 <=? b0) && (b0 <=? 239) then
        match r0 with
        | b1 :: b2 :: r2 =>
            if continuation b1 && continuation b2
               && (negb (b0 =? 224) || (160 <=? b1))
               && (negb (b0 =? 237) || (b1 <=? 159)) then
              s <- decode_ints r2 ;;
              Ok ((b0 - 224) * 4096 + (b1 - 128) * 64 + (b2 - 128) :: s)
            else Raise UnicodeDecodeError
        | _ => Raise UnicodeDecodeError
        end
      else if (240 <=? b0) && (b0 <=? 244) then
        match r0 with
        | b1 :: b2 :: b3 :: r3 =>
            if continuation b1 && continuation b2 && continuation b3
               && (negb (b0 =? 240) || (144 <=? b1))
               && (negb (b0 =? 244) || (b1 <=? 143)) then
              s <- decode_ints r3 ;;
              Ok ((b0 - 240) * 262144 + (b1 - 128) * 4096
                  + (b2 - 128) * 64 + (b3 - 128) :: s)
            else Raise UnicodeDecodeError
        | _ => Raise UnicodeDecodeError
        end
      else Raise UnicodeDecodeError
  end.

Definition utf8_decode (b : bytes) : result str :=
  decode_ints (map int_of_byte b).

End Py.

Import Py.

(** ** lab2: a 16-round Feistel network on 64-bit blocks *)
Module Lab2.

Definition split_block (block : Z) : Z * Z :=
  let left := Z.land (Z.shiftr block 32) 4294967295 in
  let right := Z.land block 4294967295 in
  (left, right).

Definition combine_halves (left right : Z) : Z :=
  Z.lor (Z.shiftl left 32) right.

Definition feistel_function (half_block round_key : Z) : Z :=
  let result := Z.lxor half_block round_key in
  let result := Z.land (Z.lor (Z.shiftr result 8) (Z.shiftl result 24)) 4294967295 in
  let result := Z.land (Z.lor (Z.shiftl result 3) (Z.shiftr result 29)) 4294967295 in
  let result := Z.lxor result (Z.land (Z.shiftl round_key 5) 4294967295) in
  result.

(** [rounds] defaults to 16. *)
Definition generate_round_keys (master_key rounds : Z) : result (list Z) :=
  map_each
    (fun i =>
       high <- rshift master_key (64 - i) ;;
       let shifted_key :=
         Z.land (Z.lor (Z.shiftl master_key i) high) 18446744073709551615 in
       let round_key := Z.lxor shifted_key (i * 81985529216486895) in
       Ok (Z.land round_key 4294967295))
    (range rounds).

Definition feistel_round (left right round_key : Z) : Z * Z :=
  let f_result := feistel_function right round_key in
  let new_left := right in
  let new_right := Z.lxor left f_result in
  (new_left, new_right).

(** The body of the round loop, shared by both directions. *)
Definition round_step (round_keys : list Z) (st : Z * Z) (i : Z)
  : result (Z * Z) :=
  let '(l, r) := st in
  round_key <- item round_keys i ;;
  Ok (feistel_round l r round_key).

Definition encrypt_block (block master_key rounds : Z) : result Z :=
  round_keys <- generate_round_keys master_key rounds ;;
  '(l, r) <-
    for_each (round_step round_keys) (range rounds) (split_block block) ;;
  Ok (combine_halves r l).

Definition decrypt_block (block master_key rounds : Z) : result Z :=
  round_keys <- generate_round_keys master_key rounds ;;
  '(l, r) <-
    for_each (round_step round_keys) (range_down rounds) (split_block block) ;;
  Ok (combine_halves r l).

(** The padding step of [text_to_blocks] (the lines between the encoding
    and the loop over the blocks). *)
Definition pad_bytes (bytes_data : bytes) (block_size : Z) : result bytes :=
  if block_size =? 0 then Raise ZeroDivisionError else
  let padding_size := block_size - (len bytes_data mod block_size) in
  if padding_size <? block_size then
    pad <- bytes_of_ints [padding_size] ;;
    Ok (bytes_data ++ list_mul pad padding_size)
  else Ok bytes_data.

(** [block_size] defaults to 8. *)
Definition text_to_blocks (text : str) (block_size : Z) : result (list Z) :=
  bytes_data <- utf8_encode text ;;
  bytes_data <- pad_bytes bytes_data block_size ;;
  map_each (fun i => unpack_be64 (slice bytes_data i (i + block_size)))
           (range_step (len bytes_data) block_size).

(** The removal of the padding in [blocks_to_text] (the lines between
    the loop over the blocks and the decoding). *)
Definition strip_bytes (bytes_data : bytes) (block_size : Z) : result bytes :=
  last <- item bytes_data (-1) ;;
  let padding_size := int_of_byte last in
  if padding_size <? block_size
  then Ok (slice_to bytes_data (- padding_size))
  else Ok bytes_data.

Definition blocks_to_text (blocks : list Z) (block_size : Z) : result str :=
  bytes_data <-
    for_each (fun acc block => b <- pack_be64 block ;; Ok (acc ++ b)) blocks [] ;;
  bytes_data <- strip_bytes bytes_data block_size ;;
  utf8_decode bytes_data.

Definition encrypt_text (text : str) (key : Z) : result (list Z) :=
  blocks <- text_to_blocks text 8 ;;
  map_each (fun block => encrypt_block block key 16) blocks.

Definition decrypt_text (encrypted_blocks : list Z) (key : Z) : result str :=
  decrypted_blocks <-
    map_each (fun block => decrypt_block block key 16) encrypted_blocks ;;
  blocks_to_text decrypted_blocks 8.

End Lab2.

(** ** lab3: GOST 28147-89 *)
Module Lab3.

Definition SBOX : list (list Z) :=
  [ [4; 10; 9; 2; 13; 8; 0; 14; 6; 11; 1; 12; 7; 15; 5; 3];
    [14; 11; 4; 12; 6; 13; 15; 10; 2; 3; 8; 1; 0; 7; 5; 9];
    [5; 8; 1; 13; 10; 3; 4; 2; 14; 15; 12; 7; 6; 0; 9; 11];
    [7; 13; 10; 1; 0; 8; 9; 15; 14; 4; 6; 11; 2; 5; 3; 12];
    [12; 6; 15; 10; 2; 9; 1; 7; 4; 14; 0; 5; 11; 3; 8; 13];
    [11; 3; 6; 8; 15; 0; 1; 12; 2; 5; 14; 7; 9; 10; 4; 13];
    [8; 15; 2; 5; 12; 11; 7; 6; 0; 4; 14; 9; 10; 1; 13; 3];
    [10; 2; 7; 1; 13; 8; 15; 9; 12; 0; 5; 11; 6; 14; 3; 4] ].

(** [pkcs7_pad(data, block_size)]; [block_size] defaults to 8. *)
Definition pkcs7_pad (data : bytes) (block_size : Z) : result bytes :=
  if block_size =? 0 then Raise ZeroDivisionError else
  let pad_len := block_size - (len data mod block_size) in
  pad <- bytes_of_ints (list_mul [pad_len] pad_len) ;;
  Ok (data ++ pad).

Definition pkcs7_unpad (data : bytes) : result bytes :=
  last <- item data (-1) ;;
  let pad_len := int_of_byte last in
  if (pad_len >? len data)
     || existsb (fun p => negb (int_of_byte p =? pad_len))
                (slice_from data (- pad_len))
  then Raise ValueError
  else Ok (slice_to data (- pad_len)).

(** The files the program can open, by path. *)
Definition filesystem : Type := String.string -> option bytes.

Definition load_key (fs : filesystem) (key_path : String.string) : result (list Z) :=
  match fs key_path with
  | None => Raise FileNotFoundError
  | Some key_data =>
      if negb (len key_data =? 32) then Raise ValueError
      else unpack_le32 8 key_data
  end.

(** [SBOX[j][v]]; both indices are produced in range by the caller. *)
Definition sbox (j v : Z) : Z :=
  nth (Z.to_nat v) (nth (Z.to_nat j) SBOX []) 0.

(** One pass of the inner [for j in range(8)] loop. *)
Definition substitute_nibble (s j : Z) : Z :=
  Z.lor (Z.land s (Z.lnot (Z.shiftl 15 (28 - j * 4))))
        (Z.shiftl (sbox j (Z.land (Z.shiftr s (28 - j * 4)) 15)) (28 - j * 4)).

Definition substitute (s : Z) : Z :=
  fold_left substitute_nibble (range 8) s.

(** The body of the round loop, shared by both directions. *)
Definition gost_round (key : list Z) (st : Z * Z) (i : Z) : result (Z * Z) :=
  let '(n1, n2) := st in
  k <- item key (i mod 8) ;;
  let s := Z.land (n1 + k) 4294967295 in
  let s := substitute s in
  let s := Z.land (Z.lor (Z.shiftl s 11) (Z.shiftr s (32 - 11))) 4294967295 in
  Ok (Z.lxor n2 s, n1).

Definition unpack_pair (block : bytes) : result (Z * Z) :=
  ws <- unpack_le32 2 block ;;
  match ws with
  | [n1; n2] => Ok (n1, n2)
  | _ => Raise ValueError
  end.

Definition gost_encrypt_block (block : bytes) (key : list Z) : result bytes :=
  st <- unpack_pair block ;;
  '(n1, n2) <- for_each (gost_round key) (range 32) st ;;
  pack_le32 [n2; n1].

Definition gost_decrypt_block (block : bytes) (key : list Z) : result bytes :=
  st <- unpack_pair block ;;
  '(n1, n2) <- for_each (gost_round key) (range_down 32) st ;;
  pack_le32 [n2; n1].

(** [b''.join(f(data[i:i+8], key) for i in range(0, len(data), 8))] *)
Definition join_blocks (f : bytes -> list Z -> result bytes)
           (data : bytes) (key : list Z) : result bytes :=
  outs <- map_each (fun i => f (slice data i (i + 8)) key)
                   (range_step (len data) 8) ;;
  Ok (concat outs).

(** The in-memory part of [encrypt_file]: pad, then encrypt block by block. *)
Definition encrypt_data (data : bytes) (key : list Z) : result bytes :=
  data <- pkcs7_pad data 8 ;;
  join_blocks gost_encrypt_block data key.

(** The in-memory part of [decrypt_file]: decrypt block by block, then
    remove the padding. *)
Definition decrypt_data (encrypted_data : bytes) (key : list Z) : result bytes :=
  decrypted_data <- join_blocks gost_decrypt_block encrypted_data key ;;
  pkcs7_unpad decrypted_data.

End Lab3.

(** ** Vocabulary of the statements *)
Module Spec.

Definition word32 (x : Z) : Prop := 0 <= x < 2 ^ 32.
Definition word64 (x : Z) : Prop := 0 <= x < 2 ^ 64.

(** Both halves of a cipher state are unsigned 32-bit words. *)
Definition words (st : Z * Z) : Prop := word32 (fst st) /\ word32 (snd st).

(** The [k]-th 4-bit group of a 32-bit word, most significant first. *)
Definition nibble (k s : Z) : Z := Z.land (Z.shiftr s (28 - k * 4)) 15.

(** [f] maps the values satisfying [P] one-to-one onto themselves. *)
Definition bijective_on (P : Z -> Prop) (f : Z -> Z) : Prop :=
  (forall x, P x -> P (f x)) /\
  (forall x y, P x -> P y -> f x = f y -> x = y) /\
  (forall y, P y -> exists x, P x /\ f x = y).

(** A trailing length byte [p] is refused when it exceeds the buffer or
    when one of the last [p] bytes is not [p]. *)
Definition malformed (data : bytes) (p : Z) : Prop :=
  p > len data \/
  exists q, In q (skipn (length data - Z.to_nat p) data) /\ int_of_byte q <> p.

(** The [i]-th unsigned 32-bit word of [data], its four bytes read
    least significant first. *)
Definition le_word (data : bytes) (i : nat) : Z :=
  let b j := int_of_byte (nth (4 * i + j) data Byte.x00) in
  b 0%nat + 2 ^ 8 * b 1%nat + 2 ^ 16 * b 2%nat + 2 ^ 24 * b 3%nat.

(** Rotation of a 64-bit value to the left by [i] bits: the bits shifted
    out at the top come back in at the bottom. *)
Definition rotl64 (k i : Z) : Z :=
  Z.lor ((k * 2 ^ i) mod 2 ^ 64) (k / 2 ^ (64 - i)).

(** Round key [i] of the toy cipher, in the words of its description. *)
Definition round_key (k i : Z) : Z :=
  Z.lxor (rotl64 k i) ((i * 81985529216486895) mod 2 ^ 64) mod 2 ^ 32.

(** Rotation of a 32-bit value to the right by [n] bits: the bits shifted
    out at the bottom come back in at the top. *)
Definition rotr32 (x n : Z) : Z :=
  Z.lor (x / 2 ^ n) ((x * 2 ^ (32 - n)) mod 2 ^ 32).

End Spec.

(** ** The loops without their exception plumbing *)
Module Pure.

Definition swap (st : Z * Z) : Z * Z := (snd st, fst st).

(** Round key [i] as [generate_round_keys] computes it. *)
Definition toy_key (master_key i : Z) : Z :=
  Z.land
    (Z.lxor (Z.land (Z.lor (Z.shiftl master_key i) (Z.shiftr master_key (64 - i)))
                    18446744073709551615)
            (i * 81985529216486895))
    4294967295.

Definition toy_round (st : Z * Z) (round_key : Z) : Z * Z :=
  Lab2.feistel_round (fst st) (snd st) round_key.

(** The value xored into [n2] by one round of lab3. *)
Definition gost_f (n1 k : Z) : Z :=
  let s := Lab3.substitute (Z.land (n1 + k) 4294967295) in
  Z.land (Z.lor (Z.shiftl s 11) (Z.shiftr s (32 - 11))) 4294967295.

Definition gost_step (st : Z * Z) (k : Z) : Z * Z :=
  (Z.lxor (snd st) (gost_f (fst st) k), fst st).

(** The substitution loop of lab3 over an arbitrary table [t]. *)
Definition replace_nibble (t : Z -> Z -> Z) (s j : Z) : Z :=
  Z.lor (Z.land s (Z.lnot (Z.shiftl 15 (28 - j * 4))))
        (Z.shiftl (t j (Z.land (Z.shiftr s (28 - j * 4)) 15)) (28 - j * 4)).

Definition substitute_with (t : Z -> Z -> Z) (s : Z) : Z :=
  fold_left (replace_nibble t) (range 8) s.

(** The position of [w] in [row] (its length when [w] is absent). *)
Fixpoint index_of (w : Z) (row : list Z) : nat :=
  match row with
  | [] => 0%nat
  | x :: rest => if x =? w then 0%nat else S (index_of w rest)
  end.

(** The table that undoes [SBOX] row by row. *)
Definition sbox_inv (j w : Z) : Z :=
  Z.of_nat (index_of w (nth (Z.to_nat j) Lab3.SBOX [])).

(** [t] and [u] are tables of 4-bit values, and [u] undoes [t]. *)
Definition undoes (t u : Z -> Z -> Z) : bool :=
  forallb (fun j =>
    forallb (fun v => (0 <=? t j v) && (t j v <? 16) && (u j (t j v) =? v))
            (range 16))
    (range 8).

(** The consecutive 8-byte slices of a buffer, the last one possibly
    short; [fuel] bounds their number. *)
Fixpoint chunks (fuel : nat) (data : bytes) : list bytes :=
  match fuel with
  | O => []
  | S fuel' =>
      match data with
      | [] => []
      | _ => firstn 8 data :: chunks fuel' (skipn 8 data)
      end
  end.

End Pure.

(** ** Sample runs *)

(** "Привет, мир!" is 21 bytes of UTF-8, so three blocks. *)
Definition privet : str :=
  [1055; 1088; 1080; 1074; 1077; 1090; 44; 32; 1084; 1080; 1088; 33].

(** "abcdefg" followed by the control character U+0001: 8 bytes of UTF-8. *)
Definition abcdefg_soh : str := [97; 98; 99; 100; 101; 102; 103; 1].

(** A file system in which every path holds 32 bytes of value 1. *)
Definition ones_fs : Lab3.filesystem := fun _ => Some (repeat Byte.x01 32).

Example privet_roundtrip :
  (blocks <- Lab2.encrypt_text privet 81985529216486895 ;;
   Lab2.decrypt_text blocks 81985529216486895) = Ok privet.
Proof. vm_compute. reflexivity. Qed.

Example pad_abc :
  Lab3.pkcs7_pad [Byte.x61; Byte.x62; Byte.x63] 8
  = Ok [Byte.x61; Byte.x62; Byte.x63; Byte.x05; Byte.x05; Byte.x05; Byte.x05; Byte.x05].
Proof. reflexivity. Qed.

(** ** Facts about the Python fragment *)

Lemma bind_ok {A B} (m : result A) (k : A -> result B) (a : A) :
  m = Ok a -> bind m k = k a.
Proof. intros ->. reflexivity. Qed.

Lemma Ok_inj {A} (a b : A) : Ok a = Ok b -> a = b.
Proof. intros [= ->]. reflexivity. Qed.

Lemma int_of_byte_range (b : Byte.byte) : 0 <= int_of_byte b < 256.
Proof.
  unfold int_of_byte. pose proof (Byte.to_N_bounded b) as Hb. lia.
Qed.

Lemma byte_of_int_of_byte (b : Byte.byte) : byte_of_int (int_of_byte b) = b.
Proof.
  unfold byte_of_int.
  rewrite Z.mod_small by apply int_of_byte_range.
  unfold int_of_byte. rewrite N2Z.id, Byte.of_to_N. reflexivity.
Qed.

Lemma int_of_byte_of_int (z : Z) : int_of_byte (byte_of_int z) = z mod 256.
Proof.
  unfold byte_of_int, int_of_byte.
  assert (0 <= z mod 256 < 256) as Hz by (apply Z.mod_pos_bound; lia).
  destruct (Byte.of_N (Z.to_N (z mod 256))) as [b|] eqn:E.
  - apply Byte.to_of_N in E. rewrite E. lia.
  - apply Byte.of_N_None_iff in E. lia.
Qed.

Lemma len_app {A} (l1 l2 : list A) : len (l1 ++ l2) = len l1 + len l2.
Proof. unfold len. rewrite length_app. lia. Qed.

Lemma len_nonneg {A} (l : list A) : 0 <= len l.
Proof. unfold len. lia. Qed.

Lemma list_mul_single {A} (a : A) (n : Z) :
  list_mul [a] n = repeat a (Z.to_nat n).
Proof.
  unfold list_mul. induction (Z.to_nat n) as [|k IH]; simpl; congruence.
Qed.

Lemma bytes_of_ints_repeat (z : Z) (n : nat) :
  0 <= z < 256 -> bytes_of_ints (repeat z n) = Ok (repeat (byte_of_int z) n).
Proof.
  intros Hz. unfold bytes_of_ints. induction n as [|n IH]; simpl.
  - reflexivity.
  - replace ((0 <=? z) && (z <? 256)) with true by (symmetry; apply andb_true_iff; lia).
    simpl. rewrite IH. reflexivity.
Qed.

(** A negative slice bound [-p] with [1 <= p] is [p] items before the end. *)
Lemma clamp_from_end (n : nat) (p : Z) :
  1 <= p -> clamp (Z.of_nat n) (- p) = (n - Z.to_nat p)%nat.
Proof.
  intros Hp. unfold clamp.
  replace (- p <? 0) with true by (symmetry; apply Z.ltb_lt; lia). lia.
Qed.

Lemma item_last {A} (init : list A) (a : A) : item (init ++ [a]) (-1) = Ok a.
Proof.
  assert (-1 + len (init ++ [a]) = Z.of_nat (length init)) as Hk
    by (rewrite len_app; unfold len; cbn [length]; lia).
  unfold item. change (-1 <? 0) with true. cbv iota zeta. rewrite Hk.
  replace (Z.of_nat (length init) <? 0) with false by (symmetry; apply Z.ltb_ge; lia).
  rewrite Nat2Z.id, nth_error_app2, Nat.sub_diag by lia. reflexivity.
Qed.

Lemma item_nil {A} (i : Z) : item (@nil A) i = Raise IndexError.
Proof.
  unfold item. simpl. destruct (i <? 0); [rewrite Z.add_0_r|];
    destruct (_ <? 0); try reflexivity; destruct (Z.to_nat _); reflexivity.
Qed.

(** ** The padding of lab3 *)

(** What [pkcs7_unpad] does with a buffer that ends in a byte of value at
    least 1, with the slices written as [skipn] and [firstn]. *)
Lemma pkcs7_unpad_cases (init : bytes) (b : Byte.byte) :
  let data := init ++ [b] in
  let p := int_of_byte b in
  let cut := (length data - Z.to_nat p)%nat in
  1 <= p ->
  Lab3.pkcs7_unpad data =
    if (p >? len data) || existsb (fun q => negb (int_of_byte q =? p)) (skipn cut data)
    then Raise ValueError else Ok (firstn cut data).
Proof.
  intros data p cut Hp. unfold Lab3.pkcs7_unpad.
  unfold data at 1. rewrite item_last. simpl bind. fold p.
  unfold slice_from, slice_to, len. rewrite clamp_from_end by exact Hp.
  reflexivity.
Qed.

Lemma pkcs7_pad_default (data : bytes) :
  let pad_len := 8 - len data mod 8 in
  Lab3.pkcs7_pad data 8 = Ok (data ++ repeat (byte_of_int pad_len) (Z.to_nat pad_len)).
Proof.
  intros pad_len. unfold Lab3.pkcs7_pad. simpl (8 =? 0). cbv iota. fold pad_len.
  assert (0 <= len data mod 8 < 8) as Hm by (apply Z.mod_pos_bound; lia).
  rewrite list_mul_single, bytes_of_ints_repeat by (unfold pad_len; lia).
  reflexivity.
Qed.

Lemma existsb_repeat_same (b : Byte.byte) (n : nat) :
  existsb (fun q => negb (int_of_byte q =? int_of_byte b)) (repeat b n) = false.
Proof.
  induction n as [|n IH]; simpl; [reflexivity|].
  rewrite Z.eqb_refl, IH. reflexivity.
Qed.

(** Stripping [n >= 1] trailing bytes that all hold the value [n]. *)
Lemma pkcs7_unpad_padded (data : bytes) (p : Z) :
  1 <= p < 256 ->
  Lab3.pkcs7_unpad (data ++ repeat (byte_of_int p) (Z.to_nat p)) = Ok data.
Proof.
  intros Hp. set (b := byte_of_int p).
  assert (int_of_byte b = p) as Hb
    by (unfold b; rewrite int_of_byte_of_int; apply Z.mod_small; lia).
  destruct (Z.to_nat p) as [|m] eqn:Em; [lia|].
  assert (data ++ repeat b (S m) = (data ++ repeat b m) ++ [b]) as Hsplit
    by (rewrite <- app_assoc, <- repeat_cons; reflexivity).
  rewrite Hsplit, pkcs7_unpad_cases by lia.
  rewrite <- Hsplit, Hb, Em.
  assert ((length (data ++ repeat b (S m)) - S m)%nat = length data) as ->
    by (rewrite length_app, repeat_length; lia).
  rewrite skipn_app, skipn_all, Nat.sub_diag, firstn_app, firstn_all, Nat.sub_diag.
  simpl skipn. simpl firstn. rewrite app_nil_r.
  change ([] ++ b :: repeat b m) with (repeat b (S m)).
  replace (fun q => negb (int_of_byte q =? p))
    with (fun q => negb (int_of_byte q =? int_of_byte b)) by (rewrite Hb; reflexivity).
  rewrite existsb_repeat_same, orb_false_r.
  replace (p >? len (data ++ repeat b (S m))) with false; [reflexivity|].
  symmetry. rewrite Z.gtb_ltb. apply Z.ltb_ge. rewrite len_app. unfold len at 2.
  rewrite repeat_length. pose proof (len_nonneg data). lia.
Qed.

(** C6: [pkcs7_unpad(pkcs7_pad(x)) == x] for every byte buffer [x], the
    empty one included: the padding step returns a buffer and
    [pkcs7_unpad] accepts it and gives [x] back. *)
Theorem pkcs7_unpad_pad (x : bytes) :
  (padded <- Lab3.pkcs7_pad x 8 ;; Lab3.pkcs7_unpad padded) = Ok x.
Proof.
  rewrite (bind_ok _ _ _ (pkcs7_pad_default x)).
  assert (0 <= len x mod 8 < 8) as Hm by (apply Z.mod_pos_bound; lia).
  apply pkcs7_unpad_padded. lia.
Qed.

(** C5, as the code has it: on a non-empty buffer whose last byte [p] is at
    least 1, [pkcs7_unpad] raises [ValueError] when [p] exceeds the length
    of the buffer or one of the last [p] bytes differs from [p], and
    otherwise returns the buffer without its last [p] bytes.  No bound
    [p <= 8] is checked. *)
Theorem pkcs7_unpad_checks (init : bytes) (b : Byte.byte) :
  let data := init ++ [b] in
  let p := int_of_byte b in
  1 <= p ->
  (Spec.malformed data p -> Lab3.pkcs7_unpad data = Raise ValueError) /\
  (~ Spec.malformed data p ->
   Lab3.pkcs7_unpad data = Ok (firstn (length data - Z.to_nat p) data)).
Proof.
  intros data p Hp. pose proof (pkcs7_unpad_cases init b Hp) as Hcases.
  cbv zeta in Hcases. fold data p in Hcases. rewrite Hcases. clear Hcases.
  set (bad := existsb _ _).
  assert (bad = true <->
          exists q, In q (skipn (length data - Z.to_nat p) data) /\ int_of_byte q <> p)
    as Hbad.
  { unfold bad. rewrite existsb_exists. split; intros [q [Hin Hq]]; exists q; split; auto.
    - apply negb_true_iff, Z.eqb_neq in Hq. exact Hq.
    - apply negb_true_iff, Z.eqb_neq. exact Hq. }
  split.
  - intros [Hlong | Hdiff].
    + replace (p >? len data) with true by (symmetry; apply Z.gtb_lt; lia).
      reflexivity.
    + apply Hbad in Hdiff. rewrite Hdiff, orb_true_r. reflexivity.
  - intros Hok. destruct (p >? len data) eqn:Hlong.
    + exfalso. apply Hok. left. apply Z.gtb_lt in Hlong. lia.
    + destruct bad eqn:Hb; [|reflexivity].
      exfalso. apply Hok. right. apply Hbad. reflexivity.
Qed.

Lemma pkcs7_unpad_checks_witness :
  1 <= int_of_byte Byte.x02 /\
  Lab3.pkcs7_unpad [Byte.x61; Byte.x03; Byte.x02] = Raise ValueError /\
  Lab3.pkcs7_unpad [Byte.x61; Byte.x02; Byte.x02] = Ok [Byte.x61].
Proof.
  split; [vm_compute; discriminate|]. split.
  - apply (proj1 (pkcs7_unpad_checks [Byte.x61; Byte.x03] Byte.x02
                    ltac:(vm_compute; discriminate))).
    right. exists Byte.x03. split; [left; reflexivity | vm_compute; discriminate].
  - apply (proj2 (pkcs7_unpad_checks [Byte.x61; Byte.x02] Byte.x02
                    ltac:(vm_compute; discriminate))).
    intros [Hlong | [q [Hin Hq]]].
    + vm_compute in Hlong. discriminate.
    + simpl in Hin. destruct Hin as [<- | [<- | []]]; apply Hq; reflexivity.
Defined.

(** C5, as stated, fails: nine bytes of value 9 end in a length byte above
    8, and [pkcs7_unpad] returns the empty buffer instead of raising. *)
Lemma pkcs7_unpad_accepts_nine :
  int_of_byte Byte.x09 > 8 /\ Lab3.pkcs7_unpad (repeat Byte.x09 9) = Ok [].
Proof. split; reflexivity. Qed.

(** A single zero byte: the length byte 0 is not refused either. *)
Lemma pkcs7_unpad_zero_byte : Lab3.pkcs7_unpad [Byte.x00] = Ok [].
Proof. reflexivity. Qed.

(** The empty buffer has no last byte to read. *)
Lemma pkcs7_unpad_empty : Lab3.pkcs7_unpad [] = Raise IndexError.
Proof. reflexivity. Qed.

(** ** The padding of lab2 *)

Lemma pad_bytes_aligned (data : bytes) :
  len data mod 8 = 0 -> Lab2.pad_bytes data 8 = Ok data.
Proof.
  intros Hal. unfold Lab2.pad_bytes. rewrite Hal. reflexivity.
Qed.

(** C4, as the code has it: on a buffer whose length is a multiple of 8,
    the empty one included, [pkcs7_pad] of lab3 appends exactly eight bytes
    of value 8, while the padding step of [text_to_blocks] in lab2 appends
    nothing. *)
Theorem pad_aligned (data : bytes) :
  len data mod 8 = 0 ->
  Lab3.pkcs7_pad data 8 = Ok (data ++ repeat Byte.x08 8) /\
  len (data ++ repeat Byte.x08 8) = len data + 8 /\
  Lab2.pad_bytes data 8 = Ok data.
Proof.
  intros Hal. split; [|split].
  - rewrite pkcs7_pad_default, Hal. reflexivity.
  - rewrite len_app. reflexivity.
  - apply pad_bytes_aligned, Hal.
Qed.

Lemma pad_aligned_witness :
  len (@nil Byte.byte) mod 8 = 0 /\
  Lab3.pkcs7_pad [] 8 = Ok (repeat Byte.x08 8) /\
  Lab2.pad_bytes [] 8 = Ok [].
Proof.
  split; [reflexivity|].
  destruct (pad_aligned [] eq_refl) as [Hpad [_ Hno]].
  split; [exact Hpad | exact Hno].
Defined.

(** C4, as stated, fails on lab2: the eight bytes of "abcdefgh" make one
    block, and the empty text makes none, so no padding block was added. *)
Lemma text_to_blocks_aligned_unpadded :
  Lab2.pad_bytes (repeat Byte.x61 8) 8 = Ok (repeat Byte.x61 8) /\
  Lab2.text_to_blocks [97; 98; 99; 100; 101; 102; 103; 104] 8
    = Ok [7017280452245743464] /\
  Lab2.text_to_blocks [] 8 = Ok [].
Proof. repeat split; vm_compute; reflexivity. Qed.

(** ** Key loading in lab3 *)

Lemma le_word_range (data : bytes) (i : nat) : Spec.word32 (Spec.le_word data i).
Proof.
  unfold Spec.word32, Spec.le_word.
  pose proof (int_of_byte_range (nth (4 * i + 0) data Byte.x00)).
  pose proof (int_of_byte_range (nth (4 * i + 1) data Byte.x00)).
  pose proof (int_of_byte_range (nth (4 * i + 2) data Byte.x00)).
  pose proof (int_of_byte_range (nth (4 * i + 3) data Byte.x00)).
  lia.
Qed.

Lemma unpack_le32_words (key_data : bytes) :
  length key_data = 32%nat ->
  unpack_le32 8 key_data = Ok (map (Spec.le_word key_data) (seq 0 8)).
Proof.
  intros Hlen. unfold unpack_le32. rewrite Hlen. simpl Nat.eqb. cbv iota.
  do 32 (destruct key_data as [|? key_data]; [discriminate Hlen|]).
  destruct key_data; [|discriminate Hlen].
  unfold Spec.le_word.
  cbn [groups firstn skipn map seq le_int nth Nat.add Nat.mul].
  repeat (f_equal; try lia).
Qed.

(** C7: given the bytes of the key file, [load_key] raises exactly when
    they are not 32 in number, and on 32 bytes it returns the eight
    unsigned 32-bit words read little-endian, in order. *)
Theorem load_key_checks (fs : Lab3.filesystem) (key_path : String.string)
        (key_data : bytes) :
  fs key_path = Some key_data ->
  ((exists e, Lab3.load_key fs key_path = Raise e) <-> length key_data <> 32%nat) /\
  (length key_data = 32%nat ->
   Lab3.load_key fs key_path = Ok (map (Spec.le_word key_data) (seq 0 8)) /\
   Forall Spec.word32 (map (Spec.le_word key_data) (seq 0 8))).
Proof.
  intros Hfile. unfold Lab3.load_key. rewrite Hfile.
  destruct (Nat.eq_dec (length key_data) 32) as [Hlen | Hlen].
  - assert ((len key_data =? 32) = true) as ->
      by (apply Z.eqb_eq; unfold len; lia).
    simpl negb. cbv iota. rewrite unpack_le32_words by exact Hlen. split.
    + split; [intros [e He]; discriminate He | intros Hne; contradiction].
    + intros _. split; [reflexivity|].
      apply Forall_forall. intros w Hw. apply in_map_iff in Hw.
      destruct Hw as [i [<- _]]. apply le_word_range.
  - assert ((len key_data =? 32) = false) as ->
      by (apply Z.eqb_neq; unfold len; lia).
    simpl negb. cbv iota. split.
    + split; [intros _; exact Hlen | intros _; exists ValueError; reflexivity].
    + intros Heq. contradiction.
Qed.

Lemma load_key_checks_witness :
  ones_fs String.EmptyString = Some (repeat Byte.x01 32) /\
  Lab3.load_key ones_fs String.EmptyString = Ok (repeat 16843009 8).
Proof.
  split; [reflexivity|].
  destruct (load_key_checks ones_fs String.EmptyString (repeat Byte.x01 32) eq_refl)
    as [_ Hwords].
  destruct (Hwords eq_refl) as [Hload _]. exact Hload.
Defined.

(** ** Loops and ranges *)

Lemma map_each_ok {A B} (f : A -> result B) (g : A -> B) (l : list A) :
  (forall a, In a l -> f a = Ok (g a)) -> map_each f l = Ok (map g l).
Proof.
  induction l as [|a l IH]; intros Hf; simpl; [reflexivity|].
  rewrite (Hf a) by (left; reflexivity). simpl.
  rewrite IH by (intros x Hx; apply Hf; right; exact Hx). reflexivity.
Qed.

Lemma map_each_length {A B} (f : A -> result B) (l : list A) (out : list B) :
  map_each f l = Ok out -> length out = length l.
Proof.
  revert out. induction l as [|a l IH]; intros out; simpl.
  - intros [= <-]. reflexivity.
  - destruct (f a) as [b|e]; simpl; [|discriminate].
    destruct (map_each f l) as [bs|e]; simpl; [|discriminate].
    intros [= <-]. simpl. rewrite (IH bs eq_refl). reflexivity.
Qed.

Lemma range_length (n : Z) : length (range n) = Z.to_nat n.
Proof. unfold range. rewrite length_map, length_seq. reflexivity. Qed.

Lemma range_In (n i : Z) : In i (range n) <-> 0 <= i < n.
Proof.
  unfold range. rewrite in_map_iff. split.
  - intros [m [<- Hm]]. apply in_seq in Hm. lia.
  - intros Hi. exists (Z.to_nat i). split; [lia|]. apply in_seq. lia.
Qed.

Lemma range_nth (n i d : Z) : 0 <= i < n -> nth (Z.to_nat i) (range n) d = i.
Proof.
  intros Hi. unfold range.
  rewrite (nth_indep _ d (Z.of_nat 0)) by (rewrite length_map, length_seq; lia).
  rewrite map_nth, seq_nth by lia. lia.
Qed.

(** ** The round keys of lab2 *)

Lemma land_ones32 (a : Z) : Z.land a 4294967295 = a mod 2 ^ 32.
Proof. change 4294967295 with (Z.ones 32). apply Z.land_ones. lia. Qed.

Lemma land_ones64 (a : Z) : Z.land a 18446744073709551615 = a mod 2 ^ 64.
Proof. change 18446744073709551615 with (Z.ones 64). apply Z.land_ones. lia. Qed.

(** The shifted key of [generate_round_keys] is the rotation of the key. *)
Lemma shifted_key_rotl64 (k i : Z) :
  Spec.word64 k -> 0 <= i <= 64 ->
  Z.land (Z.lor (Z.shiftl k i) (Z.shiftr k (64 - i))) 18446744073709551615
  = Spec.rotl64 k i.
Proof.
  intros [Hk0 Hk] Hi. unfold Spec.rotl64.
  rewrite Z.land_lor_distr_l, !land_ones64.
  rewrite Z.shiftl_mul_pow2, Z.shiftr_div_pow2 by lia.
  f_equal. apply Z.mod_small. split.
  - apply Z.div_pos; [lia|]. apply Z.pow_pos_nonneg; lia.
  - apply Z.lt_le_trans with (2 ^ i).
    + apply Z.div_lt_upper_bound; [apply Z.pow_pos_nonneg; lia|].
      rewrite <- Z.pow_add_r by lia. replace (64 - i + i) with 64 by lia. exact Hk.
    + apply Z.pow_le_mono_r; lia.
Qed.

Lemma round_key_formula (k i : Z) :
  Spec.word64 k -> 0 <= i < 16 ->
  (high <- rshift k (64 - i) ;;
   let shifted_key :=
     Z.land (Z.lor (Z.shiftl k i) high) 18446744073709551615 in
   let round_key := Z.lxor shifted_key (i * 81985529216486895) in
   Ok (Z.land round_key 4294967295)) = Ok (Spec.round_key k i).
Proof.
  intros Hk Hi. unfold rshift.
  replace (64 - i <? 0) with false by (symmetry; apply Z.ltb_ge; lia).
  simpl bind. cbv zeta. rewrite shifted_key_rotl64 by (auto; lia).
  rewrite land_ones32. unfold Spec.round_key.
  rewrite (Z.mod_small (i * 81985529216486895)) by lia. reflexivity.
Qed.

(** C8: for a 64-bit master key, [generate_round_keys] returns 16 round
    keys, and key [i] is the low 32 bits of the key rotated left by [i]
    bits xor [i * 0x0123456789ABCDEF] truncated to 64 bits. *)
Theorem generate_round_keys_spec (k : Z) :
  Spec.word64 k ->
  exists round_keys,
    Lab2.generate_round_keys k 16 = Ok round_keys /\
    length round_keys = 16%nat /\
    forall i, 0 <= i < 16 -> nth (Z.to_nat i) round_keys 0 = Spec.round_key k i.
Proof.
  intros Hk. exists (map (Spec.round_key k) (range 16)). split; [|split].
  - unfold Lab2.generate_round_keys. apply map_each_ok.
    intros i Hi. apply range_In in Hi. apply round_key_formula; assumption.
  - rewrite length_map, range_length. reflexivity.
  - intros i Hi.
    rewrite (nth_indep _ 0 (Spec.round_key k 0)) by (rewrite length_map, range_length; lia).
    rewrite map_nth, range_nth by exact Hi. reflexivity.
Qed.

Lemma generate_round_keys_spec_witness :
  Spec.word64 81985529216486895 /\
  exists round_keys,
    Lab2.generate_round_keys 81985529216486895 16 = Ok round_keys /\
    length round_keys = 16%nat /\
    forall i, 0 <= i < 16 ->
              nth (Z.to_nat i) round_keys 0 = Spec.round_key 81985529216486895 i.
Proof.
  assert (Spec.word64 81985529216486895) as Hk by (unfold Spec.word64; lia).
  split; [exact Hk | exact (generate_round_keys_spec 81985529216486895 Hk)].
Defined.

(** ** Words and bits *)

Lemma testbit_high (x w n : Z) :
  0 <= x < 2 ^ w -> 0 <= w <= n -> Z.testbit x n = false.
Proof.
  intros Hx Hn. rewrite <- (Z.mod_small x (2 ^ w)) by exact Hx.
  apply Z.mod_pow2_bits_high. exact Hn.
Qed.

Lemma word32_land (a : Z) : Spec.word32 (Z.land a 4294967295).
Proof.
  unfold Spec.word32. rewrite land_ones32. apply Z.mod_pos_bound. lia.
Qed.

Lemma word32_land_id (a : Z) : Spec.word32 a -> Z.land a 4294967295 = a.
Proof. intros Ha. rewrite land_ones32. apply Z.mod_small. exact Ha. Qed.

Lemma land_lxor_distr (a b m : Z) :
  Z.land (Z.lxor a b) m = Z.lxor (Z.land a m) (Z.land b m).
Proof.
  apply Z.bits_inj'. intros n Hn.
  rewrite Z.lxor_spec, !Z.land_spec, Z.lxor_spec.
  destruct (Z.testbit a n), (Z.testbit b n), (Z.testbit m n); reflexivity.
Qed.

Lemma word32_lxor (a b : Z) :
  Spec.word32 a -> Spec.word32 b -> Spec.word32 (Z.lxor a b).
Proof.
  intros Ha Hb.
  rewrite <- (word32_land_id a Ha), <- (word32_land_id b Hb), <- land_lxor_distr.
  apply word32_land.
Qed.

Lemma lxor_cancel (a f : Z) : Z.lxor (Z.lxor a f) f = a.
Proof. rewrite Z.lxor_assoc, Z.lxor_nilpotent, Z.lxor_0_r. reflexivity. Qed.

(** The same case analysis on the position of a bit closes every goal
    about halves and words below. *)
Ltac bitwise n Hn :=
  apply Z.bits_inj'; intros n Hn;
  repeat rewrite ?Z.lor_spec, ?Z.land_spec, ?Z.lxor_spec,
                 ?Z.shiftr_spec, ?Z.shiftl_spec by lia.

Lemma testbit_mask32 (n : Z) : 0 <= n -> Z.testbit 4294967295 n = (n <? 32).
Proof.
  intros Hn. change 4294967295 with (Z.ones 32).
  apply Z.testbit_ones_nonneg; lia.
Qed.

Lemma combine_split (block : Z) :
  Spec.word64 block ->
  Lab2.combine_halves (fst (Lab2.split_block block)) (snd (Lab2.split_block block))
  = block.
Proof.
  intros Hb. unfold Lab2.combine_halves, Lab2.split_block. cbn [fst snd].
  bitwise n Hn. rewrite (testbit_mask32 n) by lia.
  destruct (Z.ltb_spec n 32) as [Hlt | Hge].
  - rewrite (Z.testbit_neg_r _ (n - 32)) by lia.
    rewrite andb_true_r. reflexivity.
  - rewrite Z.shiftr_spec, (testbit_mask32 (n - 32)) by lia.
    replace (n - 32 + 32) with n by lia.
    rewrite andb_false_r, orb_false_r.
    destruct (Z.ltb_spec (n - 32) 32) as [Hlt | Hge'].
    + apply andb_true_r.
    + rewrite (testbit_high block 64 n) by (auto; lia). reflexivity.
Qed.

Lemma split_combine (l r : Z) :
  Spec.word32 l -> Spec.word32 r ->
  Lab2.split_block (Lab2.combine_halves l r) = (l, r).
Proof.
  intros Hl Hr. unfold Lab2.combine_halves, Lab2.split_block. f_equal.
  - bitwise n Hn. rewrite testbit_mask32 by lia.
    replace (n + 32 - 32) with n by lia.
    rewrite (testbit_high r 32 (n + 32)) by (auto; lia). rewrite orb_false_r.
    destruct (Z.ltb_spec n 32) as [Hlt | Hge].
    + apply andb_true_r.
    + rewrite (testbit_high l 32 n) by (auto; lia). reflexivity.
  - bitwise n Hn. rewrite testbit_mask32 by lia.
    destruct (Z.ltb_spec n 32) as [Hlt | Hge].
    + rewrite (Z.testbit_neg_r _ (n - 32)) by lia. apply andb_true_r.
    + rewrite (testbit_high r 32 n) by (auto; lia). apply andb_false_r.
Qed.

Lemma split_block_words (block : Z) :
  Spec.word32 (fst (Lab2.split_block block)) /\
  Spec.word32 (snd (Lab2.split_block block)).
Proof. split; apply word32_land. Qed.

(** A rotation indeed: bit [j] of the rotated key is bit [j - i] of the
    key, positions taken modulo 64. *)
Lemma rotl64_testbit (k i j : Z) :
  Spec.word64 k -> 0 <= i < 64 -> 0 <= j < 64 ->
  Z.testbit (Spec.rotl64 k i) j = Z.testbit k ((j - i) mod 64).
Proof.
  intros Hk Hi Hj. unfold Spec.rotl64.
  rewrite Z.lor_spec, Z.mod_pow2_bits_low, Z.mul_pow2_bits, Z.div_pow2_bits by lia.
  destruct (Z.le_gt_cases i j) as [Hle | Hgt].
  - rewrite (testbit_high k 64 (j + (64 - i))) by (auto; lia).
    rewrite Z.mod_small by lia. apply orb_false_r.
  - rewrite (Z.testbit_neg_r k (j - i)) by lia.
    replace ((j - i) mod 64) with (j + (64 - i)); [reflexivity|].
    apply Z.mod_unique with (-1); lia.
Qed.

(** ** Feistel networks

    Both ciphers run the same network: a round that is undone by running it
    again on the swapped state.  Running the rounds with the keys in
    reverse order on the swapped output therefore gives the swapped input. *)
Section FeistelNetwork.

Context {St K : Type}.
Variable round : St -> K -> St.
Variable swap : St -> St.
Hypothesis round_undo : forall s k, round (swap (round s k)) k = swap s.

Lemma rounds_undo (ks : list K) (s : St) :
  fold_left round (rev ks) (swap (fold_left round ks s)) = swap s.
Proof.
  revert s. induction ks as [|k ks IH]; intros s; simpl.
  - reflexivity.
  - rewrite fold_left_app, IH. simpl. apply round_undo.
Qed.

Variable P : St -> Prop.
Hypothesis round_keeps : forall s k, P s -> P (round s k).

Lemma rounds_keep (ks : list K) (s : St) : P s -> P (fold_left round ks s).
Proof.
  revert s. induction ks as [|k ks IH]; intros s Hs; simpl; auto.
Qed.

End FeistelNetwork.

(** A loop that looks its key up by index and cannot fail is a fold over
    the keys it visits. *)
Lemma for_each_keyed {St K} (body : St -> Z -> result St) (round : St -> K -> St)
      (key_at : Z -> K) (items : list Z) (s : St) :
  (forall s i, In i items -> body s i = Ok (round s (key_at i))) ->
  for_each body items s = Ok (fold_left round (map key_at items) s).
Proof.
  revert s. induction items as [|i items IH]; intros s Hbody; simpl.
  - reflexivity.
  - rewrite Hbody by (left; reflexivity). simpl.
    apply IH. intros s' j Hj. apply Hbody. right. exact Hj.
Qed.

Lemma item_nth {A} (l : list A) (i : Z) (d : A) :
  0 <= i < len l -> item l i = Ok (nth (Z.to_nat i) l d).
Proof.
  intros Hi. assert ((i <? 0) = false) as Hpos by (apply Z.ltb_ge; lia).
  unfold item. cbv zeta. rewrite Hpos. cbv iota. rewrite Hpos.
  rewrite (nth_error_nth' l d) by (unfold len in Hi; lia). reflexivity.
Qed.

(** ** The block cipher of lab2 *)

Lemma toy_round_undo (s : Z * Z) (k : Z) :
  Pure.toy_round (Pure.swap (Pure.toy_round s k)) k = Pure.swap s.
Proof.
  destruct s as [l r]. unfold Pure.toy_round, Pure.swap, Lab2.feistel_round.
  cbn [fst snd]. rewrite lxor_cancel. reflexivity.
Qed.

Lemma feistel_function_word (half_block round_key : Z) :
  Spec.word32 (Lab2.feistel_function half_block round_key).
Proof.
  unfold Lab2.feistel_function. apply word32_lxor; apply word32_land.
Qed.

Lemma toy_round_words (s : Z * Z) (k : Z) :
  Spec.words s -> Spec.words (Pure.toy_round s k).
Proof.
  intros [Hl Hr]. unfold Pure.toy_round, Lab2.feistel_round. split; cbn [fst snd].
  - exact Hr.
  - apply word32_lxor; [exact Hl | apply feistel_function_word].
Qed.

Lemma generate_round_keys_total (k : Z) :
  Lab2.generate_round_keys k 16 = Ok (map (Pure.toy_key k) (range 16)).
Proof.
  unfold Lab2.generate_round_keys. apply map_each_ok. intros i Hi.
  apply range_In in Hi. unfold rshift.
  replace (64 - i <? 0) with false by (symmetry; apply Z.ltb_ge; lia).
  reflexivity.
Qed.

Lemma round_step_keyed (k : Z) (s : Z * Z) (i : Z) :
  0 <= i < 16 ->
  Lab2.round_step (map (Pure.toy_key k) (range 16)) s i
  = Ok (Pure.toy_round s (Pure.toy_key k i)).
Proof.
  intros Hi. destruct s as [l r]. unfold Lab2.round_step.
  rewrite (item_nth _ i (Pure.toy_key k 0))
    by (unfold len; rewrite length_map, range_length; lia).
  rewrite map_nth, range_nth by exact Hi. reflexivity.
Qed.

Lemma encrypt_block_fold (block k : Z) :
  let st := fold_left Pure.toy_round (map (Pure.toy_key k) (range 16))
                      (Lab2.split_block block) in
  Lab2.encrypt_block block k 16 = Ok (Lab2.combine_halves (snd st) (fst st)).
Proof.
  intros st. unfold Lab2.encrypt_block.
  rewrite (bind_ok _ _ _ (generate_round_keys_total k)).
  rewrite (for_each_keyed _ Pure.toy_round (Pure.toy_key k))
    by (intros s i Hi; apply round_step_keyed, range_In, Hi).
  fold st. destruct st as [l r]. reflexivity.
Qed.

Lemma decrypt_block_fold (block k : Z) :
  let st := fold_left Pure.toy_round (rev (map (Pure.toy_key k) (range 16)))
                      (Lab2.split_block block) in
  Lab2.decrypt_block block k 16 = Ok (Lab2.combine_halves (snd st) (fst st)).
Proof.
  intros st. unfold Lab2.decrypt_block.
  rewrite (bind_ok _ _ _ (generate_round_keys_total k)).
  rewrite (for_each_keyed _ Pure.toy_round (Pure.toy_key k))
    by (intros s i Hi; apply round_step_keyed, range_In, in_rev, Hi).
  unfold range_down. rewrite map_rev.
  fold st. destruct st as [l r]. reflexivity.
Qed.

(** Decrypting the block that [encrypt_block] assembles from the final
    state of its rounds. *)
Lemma decrypt_block_of_rounds (b k : Z) :
  Spec.word64 b ->
  let st := fold_left Pure.toy_round (map (Pure.toy_key k) (range 16))
                      (Lab2.split_block b) in
  Lab2.decrypt_block (Lab2.combine_halves (snd st) (fst st)) k 16 = Ok b.
Proof.
  intros Hb st. rewrite decrypt_block_fold.
  assert (Spec.words st) as [Hl Hr]
    by (apply (rounds_keep _ Spec.words toy_round_words), split_block_words).
  rewrite (split_combine _ _ Hr Hl).
  change (snd st, fst st) with (Pure.swap st). unfold st.
  rewrite (rounds_undo _ _ toy_round_undo). cbn [Pure.swap fst snd].
  rewrite combine_split by exact Hb. reflexivity.
Qed.

(** C2: decrypting the encryption of a 64-bit block under the same master
    key gives the block back; both steps return. *)
Theorem toy_block_roundtrip (b k : Z) :
  Spec.word64 b ->
  (c <- Lab2.encrypt_block b k 16 ;; Lab2.decrypt_block c k 16) = Ok b.
Proof.
  intros Hb.
  rewrite (bind_ok _ _ _ (encrypt_block_fold b k)).
  apply decrypt_block_of_rounds. exact Hb.
Qed.

Lemma toy_block_roundtrip_witness :
  Spec.word64 18446744073709551615 /\
  (c <- Lab2.encrypt_block 18446744073709551615 81985529216486895 16 ;;
   Lab2.decrypt_block c 81985529216486895 16) = Ok 18446744073709551615.
Proof.
  assert (Spec.word64 18446744073709551615) as Hb by (unfold Spec.word64; lia).
  split; [exact Hb | exact (toy_block_roundtrip _ 81985529216486895 Hb)].
Defined.

(** ** Little-endian words *)

Lemma byte_of_int_low (b : Byte.byte) (x : Z) :
  byte_of_int (int_of_byte b + 256 * x) = b.
Proof.
  rewrite <- (byte_of_int_of_byte b) at 2. unfold byte_of_int.
  rewrite (Z.mul_comm 256 x), Z_mod_plus_full. reflexivity.
Qed.

Lemma le_bytes_le_int (bs : bytes) : le_bytes (length bs) (le_int bs) = bs.
Proof.
  induction bs as [|b bs IH]; cbn [length le_int le_bytes]; [reflexivity|].
  rewrite byte_of_int_low. f_equal.
  replace ((int_of_byte b + 256 * le_int bs) / 256) with (le_int bs); [exact IH|].
  pose proof (int_of_byte_range b). apply Z.div_unique with (int_of_byte b); lia.
Qed.

Lemma le_int_le_bytes (n : nat) (z : Z) :
  le_int (le_bytes n z) = z mod 256 ^ Z.of_nat n.
Proof.
  revert z. induction n as [|n IH]; intros z; cbn [le_bytes le_int].
  - rewrite Z.mod_1_r. reflexivity.
  - rewrite int_of_byte_of_int, IH, Nat2Z.inj_succ, Z.pow_succ_r by lia.
    rewrite Z.rem_mul_r by (try apply Z.pow_nonzero; lia). reflexivity.
Qed.

Lemma le_int_range (bs : bytes) : 0 <= le_int bs < 256 ^ Z.of_nat (length bs).
Proof.
  induction bs as [|b bs IH]; cbn [length le_int]; [simpl; lia|].
  rewrite Nat2Z.inj_succ, Z.pow_succ_r by lia.
  pose proof (int_of_byte_range b). lia.
Qed.

Lemma le_bytes_length (n : nat) (z : Z) : length (le_bytes n z) = n.
Proof.
  revert z. induction n as [|n IH]; intros z; cbn [le_bytes length]; auto.
Qed.

Lemma word32_test (w : Z) :
  Spec.word32 w -> (0 <=? w) && (w <? 2 ^ 32) = true.
Proof.
  intros [H0 H1]. apply andb_true_iff. split; [apply Z.leb_le | apply Z.ltb_lt]; lia.
Qed.

Lemma pack_pair (a b : Z) :
  Spec.word32 a -> Spec.word32 b ->
  pack_le32 [a; b] = Ok (le_bytes 4 a ++ le_bytes 4 b).
Proof.
  intros Ha Hb. unfold pack_le32. cbn [map_each].
  rewrite (word32_test a Ha), (word32_test b Hb). cbn [bind concat].
  rewrite app_nil_r. reflexivity.
Qed.

Lemma unpack_pair_split (block : bytes) :
  length block = 8%nat ->
  Lab3.unpack_pair block
  = Ok (le_int (firstn 4 block), le_int (skipn 4 block)) /\
  Spec.words (le_int (firstn 4 block), le_int (skipn 4 block)) /\
  le_bytes 4 (le_int (firstn 4 block)) ++ le_bytes 4 (le_int (skipn 4 block))
  = block.
Proof.
  intros Hlen.
  do 8 (destruct block as [|? block]; [discriminate Hlen|]).
  destruct block; [|discriminate Hlen].
  split; [reflexivity|]. cbn [firstn skipn]. split.
  - split; cbn [fst snd];
      match goal with |- Spec.word32 (le_int ?l) => apply (le_int_range l) end.
  - match goal with
    | |- le_bytes 4 (le_int ?l1) ++ le_bytes 4 (le_int ?l2) = _ =>
        exact (f_equal2 (@app _) (le_bytes_le_int l1) (le_bytes_le_int l2))
    end.
Qed.

Lemma unpack_pair_pack (a b : Z) :
  Spec.word32 a -> Spec.word32 b ->
  Lab3.unpack_pair (le_bytes 4 a ++ le_bytes 4 b) = Ok (a, b).
Proof.
  intros Ha Hb.
  assert (length (le_bytes 4 a ++ le_bytes 4 b) = 8%nat) as Hlen
    by (rewrite length_app, !le_bytes_length; reflexivity).
  destruct (unpack_pair_split _ Hlen) as [-> _].
  rewrite firstn_app, skipn_app, le_bytes_length.
  rewrite firstn_all2, skipn_all2 by (rewrite le_bytes_length; lia).
  cbn [Nat.sub firstn skipn app]. rewrite app_nil_r, !le_int_le_bytes.
  change (256 ^ Z.of_nat 4) with (2 ^ 32).
  rewrite !Z.mod_small by assumption. reflexivity.
Qed.

(** ** The block cipher of lab3 *)

Lemma gost_step_undo (s : Z * Z) (k : Z) :
  Pure.gost_step (Pure.swap (Pure.gost_step s k)) k = Pure.swap s.
Proof.
  destruct s as [n1 n2]. unfold Pure.gost_step, Pure.swap. cbn [fst snd].
  rewrite lxor_cancel. reflexivity.
Qed.

Lemma gost_step_words (s : Z * Z) (k : Z) :
  Spec.words s -> Spec.words (Pure.gost_step s k).
Proof.
  intros [H1 H2]. unfold Pure.gost_step. split; cbn [fst snd].
  - apply word32_lxor; [exact H2 | apply word32_land].
  - exact H1.
Qed.

Lemma gost_round_keyed (key : list Z) (s : Z * Z) (i : Z) :
  length key = 8%nat ->
  Lab3.gost_round key s i
  = Ok (Pure.gost_step s (nth (Z.to_nat (i mod 8)) key 0)).
Proof.
  intros Hkey. destruct s as [n1 n2]. unfold Lab3.gost_round.
  assert (0 <= i mod 8 < 8) as Hi by (apply Z.mod_pos_bound; lia).
  rewrite (item_nth key (i mod 8) 0) by (unfold len; lia).
  unfold Pure.gost_step, Pure.gost_f. cbn [bind fst snd]. reflexivity.
Qed.

Lemma gost_block_fold (items : list Z) (block : bytes) (key : list Z) (st0 : Z * Z) :
  Lab3.unpack_pair block = Ok st0 -> Spec.words st0 -> length key = 8%nat ->
  let ks := map (fun i => nth (Z.to_nat (i mod 8)) key 0) items in
  let st := fold_left Pure.gost_step ks st0 in
  (st0 <- Lab3.unpack_pair block ;;
   '(n1, n2) <- for_each (Lab3.gost_round key) items st0 ;;
   pack_le32 [n2; n1])
  = Ok (le_bytes 4 (snd st) ++ le_bytes 4 (fst st)) /\ Spec.words st.
Proof.
  intros Hunpack Hwords Hkey ks st.
  assert (Spec.words st) as Hst
    by (apply (rounds_keep _ Spec.words gost_step_words), Hwords).
  split; [|exact Hst].
  rewrite (bind_ok _ _ _ Hunpack).
  rewrite (for_each_keyed _ Pure.gost_step (fun i => nth (Z.to_nat (i mod 8)) key 0))
    by (intros s i _; apply gost_round_keyed, Hkey).
  fold ks st. destruct Hst as [H1 H2]. destruct st as [n1 n2].
  apply pack_pair; assumption.
Qed.

(** C1: decrypting the encryption of an 8-byte block under the same
    eight-word key gives the block back, whatever the bytes and the words
    are; both steps return. *)
Theorem gost_block_roundtrip (b : bytes) (k : list Z) :
  length b = 8%nat -> length k = 8%nat ->
  (c <- Lab3.gost_encrypt_block b k ;; Lab3.gost_decrypt_block c k) = Ok b.
Proof.
  intros Hb Hk.
  destruct (unpack_pair_split b Hb) as [Hunpack [Hwords Hpack]].
  set (st0 := (le_int (firstn 4 b), le_int (skipn 4 b))) in *.
  destruct (gost_block_fold (range 32) b k st0 Hunpack Hwords Hk) as [Henc Hst].
  unfold Lab3.gost_encrypt_block. rewrite Henc. cbn [bind]. clear Henc.
  set (ks := map (fun i => nth (Z.to_nat (i mod 8)) k 0) (range 32)) in *.
  set (st := fold_left Pure.gost_step ks st0) in *.
  assert (Lab3.unpack_pair (le_bytes 4 (snd st) ++ le_bytes 4 (fst st))
          = Ok (Pure.swap st)) as Hswap
    by (destruct Hst; apply unpack_pair_pack; assumption).
  assert (Spec.words (Pure.swap st)) as Hwords'
    by (destruct Hst; split; assumption).
  destruct (gost_block_fold (range_down 32) _ k _ Hswap Hwords' Hk) as [Hdec _].
  unfold Lab3.gost_decrypt_block. rewrite Hdec. clear Hdec.
  unfold range_down. rewrite map_rev. fold ks. unfold st.
  rewrite (rounds_undo _ _ gost_step_undo).
  unfold Pure.swap, st0. cbn [fst snd]. rewrite Hpack. reflexivity.
Qed.

Lemma gost_block_roundtrip_witness :
  length (repeat Byte.xff 8) = 8%nat /\
  length (repeat 4294967295 8) = 8%nat /\
  (c <- Lab3.gost_encrypt_block (repeat Byte.xff 8) (repeat 4294967295 8) ;;
   Lab3.gost_decrypt_block c (repeat 4294967295 8)) = Ok (repeat Byte.xff 8).
Proof.
  split; [reflexivity|]. split; [reflexivity|].
  exact (gost_block_roundtrip (repeat Byte.xff 8) (repeat 4294967295 8) eq_refl eq_refl).
Defined.

(** ** The substitution step of lab3 *)

Lemma substitute_nibble_is_replace :
  Lab3.substitute_nibble = Pure.replace_nibble Lab3.sbox.
Proof. reflexivity. Qed.

Lemma substitute_is_fold (s : Z) :
  Lab3.substitute s = Pure.substitute_with Lab3.sbox s.
Proof.
  unfold Lab3.substitute, Pure.substitute_with.
  rewrite substitute_nibble_is_replace. reflexivity.
Qed.

Lemma testbit_nibble (k s m : Z) :
  0 <= k < 8 -> 0 <= m ->
  Z.testbit (Spec.nibble k s) m = Z.testbit s (m + (28 - k * 4)) && (m <? 4).
Proof.
  intros Hk Hm. unfold Spec.nibble.
  rewrite Z.land_spec, Z.shiftr_spec by lia.
  change 15 with (Z.ones 4). rewrite Z.testbit_ones_nonneg by lia. reflexivity.
Qed.

Lemma nibble_range (k s : Z) : 0 <= Spec.nibble k s < 16.
Proof.
  unfold Spec.nibble. change 15 with (Z.ones 4).
  rewrite Z.land_ones by lia. apply Z.mod_pos_bound. lia.
Qed.

(** A word is its eight nibbles. *)
Lemma nibbles_inj (x y : Z) :
  Spec.word32 x -> Spec.word32 y ->
  (forall k, 0 <= k < 8 -> Spec.nibble k x = Spec.nibble k y) -> x = y.
Proof.
  intros Hx Hy Hnib. apply Z.bits_inj'. intros n Hn.
  destruct (Z.lt_ge_cases n 32) as [Hlt | Hge].
  - assert (0 <= n / 4 < 8) as Hq by (split; [apply Z.div_pos | apply Z.div_lt_upper_bound]; lia).
    assert (0 <= n mod 4 < 4) as Hr by (apply Z.mod_pos_bound; lia).
    pose proof (Z.div_mod n 4 ltac:(lia)) as Hdm.
    pose proof (f_equal (fun w => Z.testbit w (n mod 4)) (Hnib (7 - n / 4) ltac:(lia)))
      as Hbit.
    cbv beta in Hbit. rewrite !testbit_nibble in Hbit by lia.
    replace (n mod 4 + (28 - (7 - n / 4) * 4)) with n in Hbit by lia.
    replace (n mod 4 <? 4) with true in Hbit by (symmetry; apply Z.ltb_lt; lia).
    rewrite !andb_true_r in Hbit. exact Hbit.
  - rewrite (testbit_high x 32 n), (testbit_high y 32 n) by (auto; lia).
    reflexivity.
Qed.

Section Tables.

Variable t : Z -> Z -> Z.
Hypothesis t_range : forall j v, 0 <= j < 8 -> 0 <= v < 16 -> 0 <= t j v < 16.

(** Replacing nibble [j] touches the four bits of that nibble only. *)
Lemma testbit_replace_nibble (s j n : Z) :
  0 <= j < 8 -> 0 <= n ->
  Z.testbit (Pure.replace_nibble t s j) n =
    if (28 - j * 4 <=? n) && (n <? 28 - j * 4 + 4)
    then Z.testbit (t j (Spec.nibble j s)) (n - (28 - j * 4))
    else Z.testbit s n.
Proof.
  intros Hj Hn. unfold Pure.replace_nibble. fold (Spec.nibble j s).
  pose proof (t_range j (Spec.nibble j s) Hj (nibble_range j s)) as Hv.
  set (v := t j (Spec.nibble j s)) in *. set (sh := 28 - j * 4).
  assert (0 <= sh) as Hsh by (unfold sh; lia).
  rewrite Z.lor_spec, Z.land_spec, Z.lnot_spec, !Z.shiftl_spec by lia.
  change 15 with (Z.ones 4). rewrite Z.testbit_ones by lia.
  destruct (Z.leb_spec sh n) as [Hlo | Hlo]; cbn [andb].
  - replace (0 <=? n - sh) with true by (symmetry; apply Z.leb_le; lia).
    cbn [andb]. destruct (Z.ltb_spec n (sh + 4)) as [Hhi | Hhi].
    + replace (n - sh <? 4) with true by (symmetry; apply Z.ltb_lt; lia).
      cbn [negb]. rewrite andb_false_r. reflexivity.
    + replace (n - sh <? 4) with false by (symmetry; apply Z.ltb_ge; lia).
      rewrite (testbit_high v 4 (n - sh)) by (auto; lia).
      cbn [negb]. rewrite andb_true_r, orb_false_r. reflexivity.
  - replace (0 <=? n - sh) with false by (symmetry; apply Z.leb_gt; lia).
    rewrite (Z.testbit_neg_r v (n - sh)) by lia.
    cbn [andb negb]. rewrite andb_true_r, orb_false_r. reflexivity.
Qed.

Lemma replace_nibble_word (s j : Z) :
  0 <= j < 8 -> Spec.word32 s -> Spec.word32 (Pure.replace_nibble t s j).
Proof.
  intros Hj Hs.
  assert (Z.land (Pure.replace_nibble t s j) 4294967295
          = Pure.replace_nibble t s j) as <-; [|apply word32_land].
  apply Z.bits_inj'. intros n Hn.
  rewrite Z.land_spec, testbit_mask32 by lia.
  destruct (Z.ltb_spec n 32) as [Hlt | Hge]; [apply andb_true_r|].
  rewrite andb_false_r, testbit_replace_nibble by lia.
  replace (n <? 28 - j * 4 + 4) with false by (symmetry; apply Z.ltb_ge; lia).
  rewrite andb_false_r. symmetry. apply (testbit_high s 32 n); auto; lia.
Qed.

Lemma nibble_replace_nibble (s j k : Z) :
  0 <= j < 8 -> 0 <= k < 8 ->
  Spec.nibble k (Pure.replace_nibble t s j) =
    if k =? j then t j (Spec.nibble j s) else Spec.nibble k s.
Proof.
  intros Hj Hk.
  pose proof (t_range j (Spec.nibble j s) Hj (nibble_range j s)) as Hv.
  apply Z.bits_inj'. intros m Hm.
  rewrite testbit_nibble, testbit_replace_nibble by lia.
  destruct (Z.eqb_spec k j) as [-> | Hne].
  - destruct (Z.ltb_spec m 4) as [Hlt | Hge].
    + replace (28 - j * 4 <=? m + (28 - j * 4)) with true
        by (symmetry; apply Z.leb_le; lia).
      replace (m + (28 - j * 4) <? 28 - j * 4 + 4) with true
        by (symmetry; apply Z.ltb_lt; lia).
      cbn [andb]. rewrite andb_true_r. f_equal. lia.
    + rewrite andb_false_r. symmetry. apply (testbit_high _ 4 m); auto; lia.
  - rewrite testbit_nibble by lia.
    destruct (Z.ltb_spec m 4) as [Hlt | Hge]; [|rewrite !andb_false_r; reflexivity].
    replace ((28 - j * 4 <=? m + (28 - k * 4)) && (m + (28 - k * 4) <? 28 - j * 4 + 4))
      with false; [reflexivity|].
    symmetry. apply andb_false_iff.
    destruct (Z.lt_ge_cases k j); [right; apply Z.ltb_ge | left; apply Z.leb_gt]; lia.
Qed.

(** After the loop over a duplicate-free list of positions, exactly the
    nibbles at those positions have gone through the table. *)
Lemma fold_replace_nibbles (js : list Z) (s : Z) :
  NoDup js -> (forall j, In j js -> 0 <= j < 8) -> Spec.word32 s ->
  Spec.word32 (fold_left (Pure.replace_nibble t) js s) /\
  forall k, 0 <= k < 8 ->
    Spec.nibble k (fold_left (Pure.replace_nibble t) js s) =
      if in_dec Z.eq_dec k js then t k (Spec.nibble k s) else Spec.nibble k s.
Proof.
  revert s. induction js as [|j js IH]; intros s Hnd Hjs Hs.
  - split; [exact Hs | reflexivity].
  - apply NoDup_cons_iff in Hnd. destruct Hnd as [Hnotin Hnd].
    assert (0 <= j < 8) as Hj by (apply Hjs; left; reflexivity).
    destruct (IH (Pure.replace_nibble t s j) Hnd
                 (fun i Hi => Hjs i (or_intror Hi))
                 (replace_nibble_word s j Hj Hs)) as [Hword Hnib].
    split; [exact Hword|]. intros k Hk. cbn [fold_left]. rewrite (Hnib k Hk).
    rewrite !nibble_replace_nibble by assumption.
    destruct (in_dec Z.eq_dec k js) as [Hin | Hout];
      destruct (in_dec Z.eq_dec k (j :: js)) as [Hin' | Hout'].
    + destruct (Z.eqb_spec k j) as [-> | _]; [contradiction | reflexivity].
    + exfalso. apply Hout'. right. exact Hin.
    + destruct Hin' as [<- | Hin']; [|contradiction].
      rewrite Z.eqb_refl. reflexivity.
    + destruct (Z.eqb_spec k j) as [-> | _]; [|reflexivity].
      exfalso. apply Hout'. left. reflexivity.
Qed.

Lemma substitute_with_nibbles (s : Z) :
  Spec.word32 s ->
  Spec.word32 (Pure.substitute_with t s) /\
  forall k, 0 <= k < 8 ->
    Spec.nibble k (Pure.substitute_with t s) = t k (Spec.nibble k s).
Proof.
  intros Hs. unfold Pure.substitute_with.
  assert (NoDup (range 8)) as Hnd
    by (unfold range; apply Finite.Injective_map_NoDup;
        [intros a b; apply Nat2Z.inj | apply seq_NoDup]).
  destruct (fold_replace_nibbles (range 8) s Hnd (fun j Hj => proj1 (range_In 8 j) Hj) Hs)
    as [Hword Hnib].
  split; [exact Hword|]. intros k Hk. rewrite (Hnib k Hk).
  destruct (in_dec Z.eq_dec k (range 8)) as [_ | Hout]; [reflexivity|].
  exfalso. apply Hout, range_In. exact Hk.
Qed.

End Tables.

Lemma range_NoDup (n : Z) : NoDup (range n).
Proof.
  unfold range. apply Finite.Injective_map_NoDup;
    [intros a b; apply Nat2Z.inj | apply seq_NoDup].
Qed.

Lemma undoes_spec (t u : Z -> Z -> Z) :
  Pure.undoes t u = true ->
  forall j v, 0 <= j < 8 -> 0 <= v < 16 -> 0 <= t j v < 16 /\ u j (t j v) = v.
Proof.
  unfold Pure.undoes. intros Hall j v Hj Hv.
  rewrite forallb_forall in Hall. specialize (Hall j (proj2 (range_In 8 j) Hj)).
  rewrite forallb_forall in Hall. specialize (Hall v (proj2 (range_In 16 v) Hv)).
  apply andb_true_iff in Hall. destruct Hall as [Hall Hinv].
  apply andb_true_iff in Hall. destruct Hall as [Hlo Hhi].
  apply Z.leb_le in Hlo. apply Z.ltb_lt in Hhi. apply Z.eqb_eq in Hinv.
  split; [lia | exact Hinv].
Qed.

Lemma sbox_inv_undoes_sbox : Pure.undoes Lab3.sbox Pure.sbox_inv = true.
Proof. vm_compute. reflexivity. Qed.

Lemma sbox_undoes_sbox_inv : Pure.undoes Pure.sbox_inv Lab3.sbox = true.
Proof. vm_compute. reflexivity. Qed.

Lemma sbox_rows : Lab3.SBOX = map (fun j => map (Lab3.sbox j) (range 16)) (range 8).
Proof. vm_compute. reflexivity. Qed.

Lemma sbox_row_permutation (j : Z) :
  0 <= j < 8 -> Permutation (map (Lab3.sbox j) (range 16)) (range 16).
Proof.
  intros Hj. pose proof (undoes_spec _ _ sbox_inv_undoes_sbox j) as Hrow.
  apply NoDup_Permutation_bis.
  - apply Finite.Injective_map_NoDup_in; [|apply range_NoDup].
    intros x y Hx Hy Heq. apply range_In in Hx, Hy.
    destruct (Hrow x Hj Hx) as [_ <-]. destruct (Hrow y Hj Hy) as [_ <-].
    rewrite Heq. reflexivity.
  - rewrite length_map. apply Nat.le_refl.
  - intros w Hw. apply in_map_iff in Hw. destruct Hw as [v [<- Hv]].
    apply range_In in Hv. apply range_In. apply (Hrow v Hj Hv).
Qed.

Lemma substitute_bijective : Spec.bijective_on Spec.word32 Lab3.substitute.
Proof.
  pose proof (undoes_spec _ _ sbox_inv_undoes_sbox) as Hfwd.
  pose proof (undoes_spec _ _ sbox_undoes_sbox_inv) as Hbwd.
  assert (forall j v, 0 <= j < 8 -> 0 <= v < 16 -> 0 <= Lab3.sbox j v < 16) as Hs
    by (intros j v Hj Hv; apply (Hfwd j v Hj Hv)).
  assert (forall j v, 0 <= j < 8 -> 0 <= v < 16 -> 0 <= Pure.sbox_inv j v < 16) as Hi
    by (intros j v Hj Hv; apply (Hbwd j v Hj Hv)).
  split; [|split].
  - intros x Hx. rewrite substitute_is_fold.
    apply (substitute_with_nibbles Lab3.sbox Hs x Hx).
  - intros x y Hx Hy Heq.
    rewrite (substitute_is_fold x), (substitute_is_fold y) in Heq.
    apply nibbles_inj; try assumption. intros k Hk.
    destruct (substitute_with_nibbles Lab3.sbox Hs x Hx) as [_ Hnx].
    destruct (substitute_with_nibbles Lab3.sbox Hs y Hy) as [_ Hny].
    destruct (Hfwd k (Spec.nibble k x) Hk (nibble_range k x)) as [_ Ex].
    destruct (Hfwd k (Spec.nibble k y) Hk (nibble_range k y)) as [_ Ey].
    rewrite <- Ex, <- Ey, <- (Hnx k Hk), <- (Hny k Hk), Heq. reflexivity.
  - intros y Hy. exists (Pure.substitute_with Pure.sbox_inv y).
    destruct (substitute_with_nibbles Pure.sbox_inv Hi y Hy) as [Hword Hnib].
    split; [exact Hword|]. rewrite substitute_is_fold.
    destruct (substitute_with_nibbles Lab3.sbox Hs _ Hword) as [Hword' Hnib'].
    apply nibbles_inj; try assumption. intros k Hk.
    rewrite (Hnib' k Hk), (Hnib k Hk).
    apply (Hbwd k (Spec.nibble k y) Hk (nibble_range k y)).
Qed.

(** C10: [SBOX] has eight rows, each a permutation of 0..15, and so the
    nibble substitution of a round, the same in [gost_encrypt_block] and
    [gost_decrypt_block], maps the 32-bit values one-to-one onto
    themselves. *)
Theorem sbox_rows_permute :
  length Lab3.SBOX = 8%nat /\
  Forall (fun row => Permutation row (range 16)) Lab3.SBOX /\
  Spec.bijective_on Spec.word32 Lab3.substitute.
Proof.
  split; [reflexivity|]. split; [|exact substitute_bijective].
  rewrite sbox_rows. apply Forall_forall. intros row Hrow.
  apply in_map_iff in Hrow. destruct Hrow as [j [<- Hj]].
  apply sbox_row_permutation, range_In, Hj.
Qed.

(** ** Decrypting a buffer in lab3 *)

Lemma slice_block {A} (pre rest : list A) :
  slice (pre ++ rest) (len pre) (len pre + 8) = firstn 8 rest.
Proof.
  unfold slice, clamp.
  pose proof (len_nonneg pre) as Hpre.
  replace (len pre <? 0) with false by (symmetry; apply Z.ltb_ge; lia).
  replace (len pre + 8 <? 0) with false by (symmetry; apply Z.ltb_ge; lia).
  rewrite len_app.
  replace (Z.to_nat (Z.min (len pre) (len pre + len rest))) with (length pre)
    by (unfold len; lia).
  rewrite skipn_app, skipn_all, Nat.sub_diag. cbn [skipn app].
  destruct (Nat.le_gt_cases 8 (length rest)) as [Hlong | Hshort].
  - f_equal. unfold len. lia.
  - rewrite (firstn_all2 (n := 8)) by lia. apply firstn_all2. unfold len. lia.
Qed.

Lemma gost_decrypt_block_short (block : bytes) (key : list Z) :
  length block <> 8%nat -> Lab3.gost_decrypt_block block key = Raise StructError.
Proof.
  intros Hlen. unfold Lab3.gost_decrypt_block, Lab3.unpack_pair, unpack_le32.
  replace (Nat.eqb (length block) (4 * 2)) with false
    by (symmetry; apply Nat.eqb_neq; exact Hlen).
  reflexivity.
Qed.

Lemma gost_decrypt_block_total (block : bytes) (key : list Z) :
  length block = 8%nat -> length key = 8%nat ->
  exists out, Lab3.gost_decrypt_block block key = Ok out /\ length out = 8%nat.
Proof.
  intros Hblock Hkey.
  destruct (unpack_pair_split block Hblock) as [Hunpack [Hwords _]].
  destruct (gost_block_fold (range_down 32) block key _ Hunpack Hwords Hkey)
    as [Hdec _].
  eexists. split; [exact Hdec|].
  rewrite length_app, !le_bytes_length. reflexivity.
Qed.

(** The generator of [decrypt_file], started at the block that follows
    [pre]: it raises at a short last block and otherwise decrypts every
    block. *)
Lemma decrypt_blocks_from (key : list Z) (fuel : nat) :
  length key = 8%nat ->
  forall pre rest, (length rest <= fuel)%nat ->
    let run :=
      map_each (fun i => Lab3.gost_decrypt_block (slice (pre ++ rest) i (i + 8)) key)
               (range_from fuel (len pre) (len (pre ++ rest)) 8) in
    (len rest mod 8 <> 0 -> run = Raise StructError) /\
    (len rest mod 8 = 0 ->
     exists outs, run = Ok outs /\ len (concat outs) = len rest).
Proof.
  intros Hkey. induction fuel as [|fuel IH]; intros pre rest Hfuel run.
  - destruct rest; [|cbn [length] in Hfuel; lia].
    split; [intros Hmod; contradiction Hmod; reflexivity|].
    intros _. exists []. split; reflexivity.
  - subst run. cbn [range_from].
    destruct rest as [|b rest'].
    + replace (len pre <? len (pre ++ [])) with false
        by (symmetry; rewrite app_nil_r; apply Z.ltb_irrefl).
      split; [intros Hmod; contradiction Hmod; reflexivity|].
      intros _. exists []. split; reflexivity.
    + set (rest := b :: rest') in *.
      assert (0 < len rest) as Hpos by (unfold len, rest; cbn [length]; lia).
      replace (len pre <? len (pre ++ rest)) with true
        by (symmetry; apply Z.ltb_lt; rewrite len_app; lia).
      cbn [map_each]. rewrite slice_block.
      destruct (Nat.le_gt_cases 8 (length rest)) as [Hlong | Hshort].
      * assert (length (firstn 8 rest) = 8%nat) as Hblock
          by (rewrite length_firstn; lia).
        destruct (gost_decrypt_block_total _ key Hblock Hkey) as [out [-> Hout]].
        cbn [bind].
        assert (pre ++ rest = (pre ++ firstn 8 rest) ++ skipn 8 rest) as Hsplit
          by (rewrite <- app_assoc, firstn_skipn; reflexivity).
        assert (len pre + 8 = len (pre ++ firstn 8 rest)) as Hnext
          by (rewrite len_app; unfold len; lia).
        assert (len (skipn 8 rest) = len rest - 8) as Htail
          by (unfold len; rewrite length_skipn; lia).
        assert (len (skipn 8 rest) mod 8 = len rest mod 8) as Hmod8.
        { rewrite Htail. replace (len rest - 8) with (len rest + (-1) * 8) by lia.
          apply Z_mod_plus_full. }
        destruct (IH (pre ++ firstn 8 rest) (skipn 8 rest)) as [Hbad Hgood];
          [rewrite length_skipn; unfold rest in *; cbn [length] in *; lia|].
        rewrite Hmod8 in Hbad, Hgood. rewrite Hnext, Hsplit.
        split.
        -- intros Hmod. rewrite (Hbad Hmod). reflexivity.
        -- intros Hmod. destruct (Hgood Hmod) as [outs [Hrun Hlen]].
           rewrite Hrun. cbn [bind]. exists (out :: outs).
           split; [reflexivity|]. cbn [concat]. rewrite len_app, Hlen, Htail.
           unfold len. lia.
      * rewrite gost_decrypt_block_short by (rewrite length_firstn; lia).
        cbn [bind]. split; [reflexivity|].
        intros Hmod. rewrite Z.mod_small in Hmod by (unfold len in *; lia). lia.
Qed.

(** C9: with an eight-word key, a ciphertext whose length is not a multiple
    of 8 makes the decryption of the buffer raise the length error of
    [struct] at its short last block, so nothing is unpadded or returned;
    on a ciphertext of whole blocks every block is decrypted. *)
Theorem decrypt_data_length (data : bytes) (key : list Z) :
  length key = 8%nat ->
  (len data mod 8 <> 0 -> Lab3.decrypt_data data key = Raise StructError) /\
  (len data mod 8 = 0 ->
   exists out, Lab3.join_blocks Lab3.gost_decrypt_block data key = Ok out /\
               len out = len data).
Proof.
  intros Hkey.
  destruct (decrypt_blocks_from key (length data) Hkey [] data (Nat.le_refl _))
    as [Hbad Hgood].
  cbn [app] in Hbad, Hgood. change (len []) with 0 in Hbad, Hgood.
  assert (range_step (len data) 8 = range_from (length data) 0 (len data) 8) as Hrange
    by (unfold range_step, len; rewrite Nat2Z.id; reflexivity).
  unfold Lab3.decrypt_data, Lab3.join_blocks. rewrite Hrange. split.
  - intros Hmod. rewrite (Hbad Hmod). reflexivity.
  - intros Hmod. destruct (Hgood Hmod) as [outs [-> Hlen]].
    exists (concat outs). split; [reflexivity | exact Hlen].
Qed.

Lemma decrypt_data_length_witness :
  length (repeat 7 8) = 8%nat /\
  Lab3.decrypt_data (repeat Byte.x00 11) (repeat 7 8) = Raise StructError.
Proof.
  split; [reflexivity|].
  apply (proj1 (decrypt_data_length (repeat Byte.x00 11) (repeat 7 8) eq_refl)).
  vm_compute. discriminate.
Defined.

(** ** The text pipeline of lab2 *)

Lemma map_each_Forall {A B} (f : A -> result B) (P : B -> Prop) (l : list A)
      (out : list B) :
  (forall a b, f a = Ok b -> P b) -> map_each f l = Ok out -> Forall P out.
Proof.
  intros Hf. revert out. induction l as [|a l IH]; intros out; cbn [map_each].
  - intros [= <-]. constructor.
  - destruct (f a) as [b|e] eqn:Ea; cbn [bind]; [|discriminate].
    destruct (map_each f l) as [bs|e]; cbn [bind]; [|discriminate].
    intros [= <-]. constructor; [apply (Hf a b Ea) | apply IH; reflexivity].
Qed.

(** Mapping [g] over the results of [f] gives the list back when [g]
    undoes [f] on each item, and neither map raises. *)
Lemma map_each_undo {A B} (f : A -> result B) (g : B -> result A) (l : list A) :
  Forall (fun a => (b <- f a ;; g b) = Ok a) l ->
  (bs <- map_each f l ;; map_each g bs) = Ok l.
Proof.
  induction 1 as [|a l Ha _ IH]; cbn [map_each bind]; [reflexivity|].
  destruct (f a) as [b|e]; cbn [bind] in *; [|discriminate].
  destruct (map_each f l) as [bs|e]; cbn [bind] in *; [|discriminate].
  cbn [map_each]. rewrite Ha, IH. reflexivity.
Qed.

Lemma unpack_be64_word (data : bytes) (z : Z) :
  unpack_be64 data = Ok z -> Spec.word64 z.
Proof.
  unfold unpack_be64. destruct (Nat.eqb (length data) 8) eqn:Hlen; [|discriminate].
  intros [= <-]. apply Nat.eqb_eq in Hlen.
  pose proof (le_int_range (rev data)) as Hr. rewrite length_rev, Hlen in Hr.
  exact Hr.
Qed.

Lemma text_to_blocks_words (text : str) (blocks : list Z) :
  Lab2.text_to_blocks text 8 = Ok blocks -> Forall Spec.word64 blocks.
Proof.
  unfold Lab2.text_to_blocks.
  destruct (utf8_encode text) as [data|e]; cbn [bind]; [|discriminate].
  destruct (Lab2.pad_bytes data 8) as [padded|e]; cbn [bind]; [|discriminate].
  apply map_each_Forall. intros i z. apply unpack_be64_word.
Qed.

(** The block cipher cancels out of the pipeline, so a text comes back
    from [decrypt_text] exactly as it would from [blocks_to_text] applied
    to its own blocks. *)
Lemma text_pipeline (text : str) (key : Z) :
  (encrypted <- Lab2.encrypt_text text key ;; Lab2.decrypt_text encrypted key)
  = (blocks <- Lab2.text_to_blocks text 8 ;; Lab2.blocks_to_text blocks 8).
Proof.
  unfold Lab2.encrypt_text, Lab2.decrypt_text.
  destruct (Lab2.text_to_blocks text 8) as [blocks|e] eqn:Hblocks; cbn [bind];
    [|reflexivity].
  assert (Forall (fun b => (c <- Lab2.encrypt_block b key 16 ;;
                            Lab2.decrypt_block c key 16) = Ok b) blocks) as Hundo.
  { apply text_to_blocks_words in Hblocks.
    apply Forall_forall. intros b Hb.
    rewrite (bind_ok _ _ _ (encrypt_block_fold b key)).
    apply decrypt_block_of_rounds.
    rewrite Forall_forall in Hblocks. apply Hblocks, Hb. }
  apply map_each_undo in Hundo.
  destruct (map_each (fun block => Lab2.encrypt_block block key 16) blocks)
    as [encrypted|e]; cbn [bind] in *; [|discriminate].
  rewrite Hundo. reflexivity.
Qed.

(** *** Where the text does come back *)

Lemma pack_unpack_be64 (block : bytes) :
  length block = 8%nat ->
  exists z, unpack_be64 block = Ok z /\ pack_be64 z = Ok block.
Proof.
  intros Hlen. exists (le_int (rev block)). unfold unpack_be64, pack_be64.
  rewrite Hlen. split; [reflexivity|].
  pose proof (le_int_range (rev block)) as Hr. rewrite length_rev, Hlen in Hr.
  change (256 ^ Z.of_nat 8) with (2 ^ 64) in Hr.
  replace ((0 <=? le_int (rev block)) && (le_int (rev block) <? 2 ^ 64)) with true
    by (symmetry; apply andb_true_iff; split; [apply Z.leb_le | apply Z.ltb_lt]; lia).
  rewrite <- Hlen, <- length_rev, le_bytes_le_int, rev_involutive. reflexivity.
Qed.

(** The two loops between bytes and blocks, on a buffer of whole blocks:
    the blocks read after [pre] are packed back into the bytes after
    [pre]. *)
Lemma blocks_from (fuel : nat) :
  forall pre rest, (length rest <= fuel)%nat -> len rest mod 8 = 0 ->
    exists blocks,
      map_each (fun i => unpack_be64 (slice (pre ++ rest) i (i + 8)))
               (range_from fuel (len pre) (len (pre ++ rest)) 8) = Ok blocks /\
      forall acc,
        for_each (fun acc block => b <- pack_be64 block ;; Ok (acc ++ b)) blocks acc
        = Ok (acc ++ rest).
Proof.
  induction fuel as [|fuel IH]; intros pre rest Hfuel Hmod.
  - destruct rest; [|cbn [length] in Hfuel; lia].
    exists []. split; [reflexivity|]. intros acc. rewrite app_nil_r. reflexivity.
  - cbn [range_from]. destruct rest as [|b rest'].
    + replace (len pre <? len (pre ++ [])) with false
        by (symmetry; rewrite app_nil_r; apply Z.ltb_irrefl).
      exists []. split; [reflexivity|]. intros acc. rewrite app_nil_r. reflexivity.
    + set (rest := b :: rest') in *.
      assert (0 < len rest) as Hpos by (unfold len, rest; cbn [length]; lia).
      replace (len pre <? len (pre ++ rest)) with true
        by (symmetry; apply Z.ltb_lt; rewrite len_app; lia).
      cbn [map_each]. rewrite slice_block.
      assert (8 <= length rest)%nat as Hlong.
      { destruct (Nat.le_gt_cases 8 (length rest)) as [H | H]; [exact H|].
        rewrite Z.mod_small in Hmod by (unfold len in *; lia). lia. }
      assert (length (firstn 8 rest) = 8%nat) as Hblock
        by (rewrite length_firstn; lia).
      destruct (pack_unpack_be64 _ Hblock) as [z [-> Hpack]]. cbn [bind].
      assert (pre ++ rest = (pre ++ firstn 8 rest) ++ skipn 8 rest) as Hsplit
        by (rewrite <- app_assoc, firstn_skipn; reflexivity).
      assert (len pre + 8 = len (pre ++ firstn 8 rest)) as Hnext
        by (rewrite len_app; unfold len; lia).
      assert (len (skipn 8 rest) mod 8 = 0) as Hmod8.
      { replace (len (skipn 8 rest)) with (len rest + (-1) * 8)
          by (unfold len; rewrite length_skipn; lia).
        rewrite Z_mod_plus_full. exact Hmod. }
      destruct (IH (pre ++ firstn 8 rest) (skipn 8 rest)) as [blocks [Hrun Hback]];
        [rewrite length_skipn; unfold rest in *; cbn [length] in *; lia
        |exact Hmod8|].
      rewrite Hnext, Hsplit, Hrun. cbn [bind]. exists (z :: blocks).
      split; [reflexivity|]. intros acc. cbn [for_each]. rewrite Hpack. cbn [bind].
      rewrite Hback, <- app_assoc, firstn_skipn. reflexivity.
Qed.

(** [strip_bytes] removes a padding of [p] bytes of value [p], [1 <= p < 8]. *)
Lemma strip_bytes_padded (data : bytes) (p : Z) :
  1 <= p < 8 ->
  Lab2.strip_bytes (data ++ repeat (byte_of_int p) (Z.to_nat p)) 8 = Ok data.
Proof.
  intros Hp. set (b := byte_of_int p).
  assert (int_of_byte b = p) as Hb
    by (unfold b; rewrite int_of_byte_of_int; apply Z.mod_small; lia).
  destruct (Z.to_nat p) as [|m] eqn:Em; [lia|].
  assert (data ++ repeat b (S m) = (data ++ repeat b m) ++ [b]) as Hsplit
    by (rewrite <- app_assoc, <- repeat_cons; reflexivity).
  unfold Lab2.strip_bytes. rewrite Hsplit, item_last. cbn [bind]. rewrite Hb.
  replace (p <? 8) with true by (symmetry; apply Z.ltb_lt; lia).
  rewrite <- Hsplit. unfold slice_to, len. rewrite clamp_from_end by lia.
  rewrite Em, length_app, repeat_length.
  replace (length data + S m - S m)%nat with (length data) by lia.
  rewrite firstn_app, firstn_all, Nat.sub_diag. cbn [firstn].
  rewrite app_nil_r. reflexivity.
Qed.

(** A last byte of value 8 or more is never taken for padding. *)
Lemma strip_bytes_kept (init : bytes) (b : Byte.byte) :
  8 <= int_of_byte b -> Lab2.strip_bytes (init ++ [b]) 8 = Ok (init ++ [b]).
Proof.
  intros Hb. unfold Lab2.strip_bytes. rewrite item_last. cbn [bind].
  replace (int_of_byte b <? 8) with false by (symmetry; apply Z.ltb_ge; lia).
  reflexivity.
Qed.

(** *** UTF-8: decoding undoes encoding *)

(** Settle the comparisons of the goal one at a time, dropping the
    branches that contradict the hypotheses. *)
Ltac settle_tests :=
  repeat (first
    [ match goal with |- context [Z.ltb ?a ?b] => destruct (Z.ltb_spec a b) end
    | match goal with |- context [Z.leb ?a ?b] => destruct (Z.leb_spec a b) end
    | match goal with |- context [Z.eqb ?a ?b] => destruct (Z.eqb_spec a b) end ];
    try (exfalso; lia); cbn [andb orb negb]).

Ltac same_point :=
  match goal with
  | |- bind ?m _ = bind ?m _ => destruct m; cbn [bind]; [do 2 f_equal; lia | reflexivity]
  end.

Lemma decode_one (c : Z) (rest : list Z) :
  0 <= c < 128 ->
  decode_ints (c :: rest) = (s <- decode_ints rest ;; Ok (c :: s)).
Proof. intros Hc. cbn [decode_ints]. settle_tests. reflexivity. Qed.

Lemma decode_two (q r : Z) (rest : list Z) :
  2 <= q <= 31 -> 0 <= r < 64 ->
  decode_ints (192 + q :: 128 + r :: rest)
  = (s <- decode_ints rest ;; Ok (64 * q + r :: s)).
Proof.
  intros Hq Hr. cbn [decode_ints]. unfold continuation. settle_tests. same_point.
Qed.

Lemma decode_three (q m r : Z) (rest : list Z) :
  0 <= q <= 15 -> 0 <= m < 64 -> 0 <= r < 64 ->
  (q = 0 -> 32 <= m) -> (q = 13 -> m < 32) ->
  decode_ints (224 + q :: 128 + m :: 128 + r :: rest)
  = (s <- decode_ints rest ;; Ok (4096 * q + 64 * m + r :: s)).
Proof.
  intros Hq Hm Hr Hlow Hsur. cbn [decode_ints]. unfold continuation.
  settle_tests; same_point.
Qed.

Lemma decode_four (q n m r : Z) (rest : list Z) :
  0 <= q <= 4 -> 0 <= n < 64 -> 0 <= m < 64 -> 0 <= r < 64 ->
  (q = 0 -> 16 <= n) -> (q = 4 -> n < 16) ->
  decode_ints (240 + q :: 128 + n :: 128 + m :: 128 + r :: rest)
  = (s <- decode_ints rest ;; Ok (262144 * q + 4096 * n + 64 * m + r :: s)).
Proof.
  intros Hq Hn Hm Hr Hlow Hhigh. cbn [decode_ints]. unfold continuation.
  settle_tests; same_point.
Qed.

Lemma encode_point_decodes (c : Z) (ints : list Z) :
  encode_point c = Ok ints ->
  Forall (fun z => 0 <= z < 256) ints /\
  forall rest, decode_ints (ints ++ rest) = (s <- decode_ints rest ;; Ok (c :: s)).
Proof.
  unfold encode_point.
  assert (c = 64 * (c / 64) + c mod 64 /\ 0 <= c mod 64 < 64 /\
          c / 64 = 64 * (c / 4096) + (c / 64) mod 64 /\ 0 <= (c / 64) mod 64 < 64 /\
          c / 4096 = 64 * (c / 262144) + (c / 4096) mod 64 /\
          0 <= (c / 4096) mod 64 < 64)
    as [H64 [Hr [H4096 [Hm [H262144 Hn]]]]]
    by (Z.div_mod_to_equations; lia).
  set (r := c mod 64) in *. set (m := (c / 64) mod 64) in *.
  set (n := (c / 4096) mod 64) in *.
  set (q1 := c / 64) in *. set (q2 := c / 4096) in *. set (q3 := c / 262144) in *.
  clearbody r m n q1 q2 q3.
  settle_tests; intros Hints; try discriminate Hints;
    apply Ok_inj in Hints; subst ints.
  all: split; [repeat (apply Forall_cons; [lia|]); apply Forall_nil | intros rest; cbn [app]].
  all: first [ apply decode_one; lia
             | rewrite decode_two by lia; same_point
             | rewrite decode_three by lia; same_point
             | rewrite decode_four by lia; same_point ].
Qed.

Lemma decode_encoded (s : str) (pts : list (list Z)) :
  map_each encode_point s = Ok pts ->
  Forall (fun z => 0 <= z < 256) (concat pts) /\ decode_ints (concat pts) = Ok s.
Proof.
  revert pts. induction s as [|c s IH]; intros pts; cbn [map_each].
  - intros [= <-]. split; [constructor | reflexivity].
  - destruct (encode_point c) as [ints|e] eqn:Hc; cbn [bind]; [|discriminate].
    destruct (map_each encode_point s) as [pts'|e]; cbn [bind]; [|discriminate].
    intros [= <-]. destruct (IH pts' eq_refl) as [Hrange Hdec].
    destruct (encode_point_decodes c ints Hc) as [Hints Hhead].
    cbn [concat]. split; [apply Forall_app; split; assumption|].
    rewrite Hhead, Hdec. reflexivity.
Qed.

Lemma ints_of_bytes_of_ints (ints : list Z) :
  Forall (fun z => 0 <= z < 256) ints ->
  map int_of_byte (map byte_of_int ints) = ints.
Proof.
  induction 1 as [|z ints Hz _ IH]; cbn [map]; [reflexivity|].
  rewrite int_of_byte_of_int, Z.mod_small, IH by exact Hz. reflexivity.
Qed.

Lemma utf8_decode_encode (text : str) (data : bytes) :
  utf8_encode text = Ok data -> utf8_decode data = Ok text.
Proof.
  unfold utf8_encode, utf8_decode.
  destruct (map_each encode_point text) as [pts|e] eqn:Hpts; cbn [bind]; [|discriminate].
  intros [= <-]. destruct (decode_encoded text pts Hpts) as [Hrange Hdec].
  rewrite ints_of_bytes_of_ints by exact Hrange. exact Hdec.
Qed.

Lemma blocks_of_bytes (padded : bytes) :
  len padded mod 8 = 0 ->
  exists blocks,
    map_each (fun i => unpack_be64 (slice padded i (i + 8)))
             (range_step (len padded) 8) = Ok blocks /\
    for_each (fun acc block => b <- pack_be64 block ;; Ok (acc ++ b)) blocks []
    = Ok padded.
Proof.
  intros Hmod.
  destruct (blocks_from (length padded) [] padded (Nat.le_refl _) Hmod)
    as [blocks [Hrun Hback]].
  exists blocks. split; [|apply (Hback [])].
  unfold range_step. cbn [Z.leb Z.compare]. unfold len at 1. rewrite Nat2Z.id.
  exact Hrun.
Qed.

Lemma pad_bytes_unaligned (data : bytes) :
  len data mod 8 <> 0 ->
  let p := 8 - len data mod 8 in
  1 <= p < 8 /\
  Lab2.pad_bytes data 8 = Ok (data ++ repeat (byte_of_int p) (Z.to_nat p)) /\
  len (data ++ repeat (byte_of_int p) (Z.to_nat p)) mod 8 = 0.
Proof.
  intros Hmod p.
  assert (0 <= len data mod 8 < 8) as Hm by (apply Z.mod_pos_bound; lia).
  assert (1 <= p < 8) as Hp by (unfold p; lia).
  split; [exact Hp|]. split.
  - unfold Lab2.pad_bytes. cbn [Z.eqb]. fold p.
    replace (p <? 8) with true by (symmetry; apply Z.ltb_lt; lia).
    unfold bytes_of_ints. cbn [map_each].
    replace ((0 <=? p) && (p <? 256)) with true
      by (symmetry; apply andb_true_iff; split; [apply Z.leb_le | apply Z.ltb_lt]; lia).
    cbn [bind]. rewrite list_mul_single. reflexivity.
  - rewrite len_app. unfold len at 2. rewrite repeat_length, Z2Nat.id by lia.
    unfold p. replace (len data + (8 - len data mod 8))
      with (len data - len data mod 8 + 1 * 8) by lia.
    rewrite Z_mod_plus_full, Zminus_mod_idemp_r, Z.sub_diag. reflexivity.
Qed.

(** X8: a text whose UTF-8 form does not fill whole blocks, or ends in a
    byte of value 8 or more, does come back from [decrypt_text] under every
    key. *)
Lemma toy_text_roundtrip_when (text : str) (key : Z) (data : bytes) :
  utf8_encode text = Ok data ->
  len data mod 8 <> 0 \/ (exists init b, data = init ++ [b] /\ 8 <= int_of_byte b) ->
  (encrypted <- Lab2.encrypt_text text key ;; Lab2.decrypt_text encrypted key)
  = Ok text.
Proof.
  intros Henc Hshape. rewrite text_pipeline.
  unfold Lab2.text_to_blocks, Lab2.blocks_to_text. rewrite Henc. cbn [bind].
  destruct (Z.eq_dec (len data mod 8) 0) as [Hal | Hun].
  - destruct Hshape as [Hun | [init [b [-> Hb]]]]; [contradiction|].
    rewrite pad_bytes_aligned by exact Hal. cbn [bind].
    destruct (blocks_of_bytes _ Hal) as [blocks [-> Hback]]. cbn [bind].
    rewrite Hback. cbn [bind]. rewrite strip_bytes_kept by exact Hb. cbn [bind].
    apply utf8_decode_encode, Henc.
  - destruct (pad_bytes_unaligned data Hun) as [Hp [-> Hal]]. cbn [bind].
    destruct (blocks_of_bytes _ Hal) as [blocks [-> Hback]]. cbn [bind].
    rewrite Hback. cbn [bind]. rewrite strip_bytes_padded by exact Hp. cbn [bind].
    apply utf8_decode_encode, Henc.
Qed.

(** C3 fails on texts whose UTF-8 form fills whole blocks.  Under every
    key, the empty text is encrypted to no block at all and decrypting
    that raises [IndexError]; the 8-byte text "abcdefg\x01" comes back as
    "abcdefg", its last byte taken for padding. *)
Theorem toy_text_roundtrip_breaks (key : Z) :
  Lab2.encrypt_text [] key = Ok [] /\
  Lab2.decrypt_text [] key = Raise IndexError /\
  (encrypted <- Lab2.encrypt_text abcdefg_soh key ;;
   Lab2.decrypt_text encrypted key) = Ok [97; 98; 99; 100; 101; 102; 103].
Proof.
  split; [reflexivity|]. split; [reflexivity|].
  rewrite (text_pipeline abcdefg_soh key). vm_compute. reflexivity.
Qed.

(** * Further properties of the code *)

(** ** lab2: halves, round function and round *)

Lemma testbit_mod64 (b n : Z) :
  0 <= n -> Z.testbit (b mod 2 ^ 64) n = Z.testbit b n && (n <? 64).
Proof.
  intros Hn. destruct (Z.ltb_spec n 64) as [Hlt | Hge].
  - rewrite Z.mod_pow2_bits_low by lia. symmetry. apply andb_true_r.
  - rewrite Z.mod_pow2_bits_high by lia. symmetry. apply andb_false_r.
Qed.

Lemma combine_split_mod (block : Z) :
  Lab2.combine_halves (Z.land (Z.shiftr block 32) 4294967295)
                      (Z.land block 4294967295) = block mod 2 ^ 64.
Proof.
  unfold Lab2.combine_halves. bitwise n Hn.
  rewrite testbit_mod64, (testbit_mask32 n) by lia.
  destruct (Z.ltb_spec n 32) as [Hlt | Hge].
  - rewrite (Z.testbit_neg_r _ (n - 32)) by lia.
    replace (n <? 64) with true by (symmetry; apply Z.ltb_lt; lia).
    reflexivity.
  - rewrite Z.shiftr_spec, (testbit_mask32 (n - 32)) by lia.
    replace (n - 32 + 32) with n by lia.
    rewrite andb_false_r, orb_false_r. f_equal.
    destruct (Z.ltb_spec (n - 32) 32), (Z.ltb_spec n 64); try reflexivity; lia.
Qed.

(** X1: combining the two halves that [split_block] returns gives the
    block reduced to 64 bits, whatever integer the block is; both halves
    are 32-bit words, and a block that fits 64 bits is rebuilt exactly. *)
Theorem combine_split_truncates (block : Z) :
  let '(l, r) := Lab2.split_block block in
  Lab2.combine_halves l r = block mod 2 ^ 64 /\
  Spec.word32 l /\ Spec.word32 r /\
  (Spec.word64 block -> Lab2.combine_halves l r = block).
Proof.
  unfold Lab2.split_block.
  split; [apply combine_split_mod|]. split; [apply word32_land|].
  split; [apply word32_land|].
  intros Hb. rewrite combine_split_mod. apply Z.mod_small. exact Hb.
Qed.

Lemma split_combine_words (l r : Z) :
  Spec.word32 l -> Spec.word32 r -> Spec.word64 (Lab2.combine_halves l r).
Proof.
  intros Hl Hr.
  pose proof (combine_split_mod (Lab2.combine_halves l r)) as Htr.
  pose proof (split_combine l r Hl Hr) as Hsplit.
  unfold Lab2.split_block in Hsplit. apply pair_equal_spec in Hsplit.
  destruct Hsplit as [Hleft Hright]. rewrite Hleft, Hright in Htr.
  unfold Spec.word64. rewrite Htr. apply Z.mod_pos_bound. lia.
Qed.

(** X2: splitting the combination of two 32-bit halves gives the halves
    back, and the combination fits 64 bits. *)
Theorem split_combine_halves (l r : Z) :
  Spec.word32 l -> Spec.word32 r ->
  Lab2.split_block (Lab2.combine_halves l r) = (l, r) /\
  Spec.word64 (Lab2.combine_halves l r).
Proof.
  intros Hl Hr. split; [apply split_combine; assumption|].
  pose proof (combine_split_mod (Lab2.combine_halves l r)) as Htr.
  pose proof (split_combine l r Hl Hr) as Hsplit.
  unfold Lab2.split_block in Hsplit. apply pair_equal_spec in Hsplit.
  destruct Hsplit as [Hleft Hright]. rewrite Hleft, Hright in Htr.
  unfold Spec.word64. rewrite Htr. apply Z.mod_pos_bound. lia.
Qed.

Lemma split_combine_halves_witness :
  Spec.word32 4294967295 /\ Spec.word32 1 /\
  Lab2.split_block (Lab2.combine_halves 4294967295 1) = (4294967295, 1).
Proof.
  assert (Spec.word32 4294967295) as Hl by (unfold Spec.word32; lia).
  assert (Spec.word32 1) as Hr by (unfold Spec.word32; lia).
  split; [exact Hl|]. split; [exact Hr|].
  exact (proj1 (split_combine_halves 4294967295 1 Hl Hr)).
Defined.

Lemma testbit_masked_rotation (x up down m : Z) :
  0 <= m -> 0 <= up -> 0 <= down ->
  Z.testbit (Z.land (Z.lor (Z.shiftr x down) (Z.shiftl x up)) 4294967295) m
  = (Z.testbit x (m + down) || Z.testbit x (m - up)) && (m <? 32).
Proof.
  intros Hm Hup Hdown.
  rewrite Z.land_spec, Z.lor_spec, Z.shiftr_spec, Z.shiftl_spec, testbit_mask32 by lia.
  reflexivity.
Qed.

Lemma testbit_rotr32 (x n m : Z) :
  0 <= n <= 32 -> 0 <= m ->
  Z.testbit (Spec.rotr32 x n) m
  = Z.testbit x (m + n) || (Z.testbit x (m - (32 - n)) && (m <? 32)).
Proof.
  intros Hn Hm. unfold Spec.rotr32.
  rewrite Z.lor_spec, Z.div_pow2_bits by lia. f_equal.
  destruct (Z.ltb_spec m 32) as [Hlt | Hge].
  - rewrite Z.mod_pow2_bits_low, Z.mul_pow2_bits by lia. symmetry. apply andb_true_r.
  - rewrite Z.mod_pow2_bits_high by lia. symmetry. apply andb_false_r.
Qed.

(** The two rotations of [feistel_function], right by 8 and then left by
    3, are one rotation to the right by 5. *)
Lemma rotations_compose (x : Z) :
  Spec.word32 x ->
  let r1 := Z.land (Z.lor (Z.shiftr x 8) (Z.shiftl x 24)) 4294967295 in
  Z.land (Z.lor (Z.shiftl r1 3) (Z.shiftr r1 29)) 4294967295 = Spec.rotr32 x 5.
Proof.
  intros Hx r1. rewrite Z.lor_comm. apply Z.bits_inj'. intros n Hn.
  rewrite testbit_masked_rotation, testbit_rotr32 by lia.
  destruct (Z.ltb_spec n 32) as [Hlt | Hge].
  - rewrite !andb_true_r. unfold r1.
    rewrite (testbit_masked_rotation x 24 8 (n + 29)) by lia.
    destruct (Z.lt_ge_cases n 3) as [Hlow | Hmid].
    + rewrite (Z.testbit_neg_r _ (n - 3)), (Z.testbit_neg_r x (n - (32 - 5))) by lia.
      replace (n + 29 <? 32) with true by (symmetry; apply Z.ltb_lt; lia).
      rewrite (testbit_high x 32 (n + 29 + 8)) by (auto; lia).
      replace (n + 29 - 24) with (n + 5) by lia.
      cbn [orb andb]. rewrite andb_true_r, orb_false_r. reflexivity.
    + rewrite (testbit_masked_rotation x 24 8 (n - 3)) by lia.
      replace (n + 29 <? 32) with false by (symmetry; apply Z.ltb_ge; lia).
      replace (n - 3 <? 32) with true by (symmetry; apply Z.ltb_lt; lia).
      replace (n - 3 + 8) with (n + 5) by lia.
      replace (n - 3 - 24) with (n - (32 - 5)) by lia.
      rewrite andb_false_r, andb_true_r. reflexivity.
  - rewrite !andb_false_r, orb_false_r. symmetry.
    apply (testbit_high x 32); auto; lia.
Qed.

(** X3: on 32-bit values [feistel_function] xors the half with the round
    key, rotates the result right by 5 bits and xors in the round key
    shifted left by 5 bits and cut to 32 bits; its result is a 32-bit
    word. *)
Theorem feistel_function_rotates (half_block round_key : Z) :
  Spec.word32 half_block -> Spec.word32 round_key ->
  Lab2.feistel_function half_block round_key
  = Z.lxor (Spec.rotr32 (Z.lxor half_block round_key) 5)
           ((round_key * 2 ^ 5) mod 2 ^ 32) /\
  Spec.word32 (Lab2.feistel_function half_block round_key).
Proof.
  intros Hh Hk. split; [|apply feistel_function_word].
  unfold Lab2.feistel_function.
  rewrite (rotations_compose _ (word32_lxor _ _ Hh Hk)).
  rewrite land_ones32, Z.shiftl_mul_pow2 by lia. reflexivity.
Qed.

Lemma feistel_function_rotates_witness :
  Spec.word32 33 /\ Spec.word32 0 /\
  Lab2.feistel_function 33 0 = Z.lxor (Spec.rotr32 (Z.lxor 33 0) 5) 0.
Proof.
  assert (Spec.word32 33) as Hh by (unfold Spec.word32; lia).
  assert (Spec.word32 0) as Hk by (unfold Spec.word32; lia).
  split; [exact Hh|]. split; [exact Hk|].
  exact (proj1 (feistel_function_rotates 33 0 Hh Hk)).
Defined.

(** X4: a round is undone by running it again, with the same round key, on
    the swapped halves; this holds for all integers. *)
Theorem feistel_round_undone (left right round_key : Z) :
  let '(new_left, new_right) := Lab2.feistel_round left right round_key in
  Lab2.feistel_round new_right new_left round_key = (right, left).
Proof.
  unfold Lab2.feistel_round. rewrite lxor_cancel. reflexivity.
Qed.

(** ** lab2: any number of rounds *)

Lemma map_each_raise {A B} (f : A -> result B) (g : A -> B)
      (before : list A) (a : A) (after : list A) (e : exn) :
  (forall x, In x before -> f x = Ok (g x)) -> f a = Raise e ->
  map_each f (before ++ a :: after) = Raise e.
Proof.
  intros Hbefore Ha. induction before as [|x before IH]; cbn [app map_each].
  - rewrite Ha. reflexivity.
  - rewrite (Hbefore x) by (left; reflexivity). cbn [bind].
    rewrite IH by (intros y Hy; apply Hbefore; right; exact Hy). reflexivity.
Qed.

Lemma range_split (n m : Z) :
  0 <= n < m -> exists after, range m = range n ++ n :: after.
Proof.
  intros Hnm. unfold range.
  replace (Z.to_nat m) with (Z.to_nat n + S (Z.to_nat m - Z.to_nat n - 1))%nat by lia.
  rewrite seq_app, map_app. cbn [seq map Nat.add]. rewrite Z2Nat.id by lia.
  eexists. reflexivity.
Qed.

Lemma generate_round_keys_upto (k rounds : Z) :
  rounds <= 65 ->
  Lab2.generate_round_keys k rounds = Ok (map (Pure.toy_key k) (range rounds)).
Proof.
  intros Hrounds. unfold Lab2.generate_round_keys. apply map_each_ok. intros i Hi.
  apply range_In in Hi. unfold rshift.
  replace (64 - i <? 0) with false by (symmetry; apply Z.ltb_ge; lia).
  reflexivity.
Qed.

Lemma toy_key_word (k i : Z) : Spec.word32 (Pure.toy_key k i).
Proof. apply word32_land. Qed.

(** X5: [generate_round_keys] returns [rounds] round keys, each a 32-bit
    word, for every integer master key as long as [rounds] is at most 65
    (none when it is negative); from 66 rounds on it raises [ValueError],
    the shift count [64 - i] having become negative. *)
Theorem generate_round_keys_rounds (master_key rounds : Z) :
  (rounds <= 65 ->
   exists round_keys,
     Lab2.generate_round_keys master_key rounds = Ok round_keys /\
     len round_keys = Z.max 0 rounds /\ Forall Spec.word32 round_keys) /\
  (66 <= rounds -> Lab2.generate_round_keys master_key rounds = Raise ValueError).
Proof.
  split.
  - intros Hrounds. exists (map (Pure.toy_key master_key) (range rounds)).
    split; [apply generate_round_keys_upto, Hrounds|]. split.
    + unfold len. rewrite length_map, range_length. lia.
    + apply Forall_forall. intros w Hw. apply in_map_iff in Hw.
      destruct Hw as [i [<- _]]. apply toy_key_word.
  - intros Hrounds. unfold Lab2.generate_round_keys.
    destruct (range_split 65 rounds ltac:(lia)) as [after ->].
    apply map_each_raise with (g := Pure.toy_key master_key).
    + intros i Hi. apply range_In in Hi. unfold rshift.
      replace (64 - i <? 0) with false by (symmetry; apply Z.ltb_ge; lia).
      reflexivity.
    + reflexivity.
Qed.

Lemma round_step_keyed_upto (k rounds : Z) (s : Z * Z) (i : Z) :
  0 <= i < rounds ->
  Lab2.round_step (map (Pure.toy_key k) (range rounds)) s i
  = Ok (Pure.toy_round s (Pure.toy_key k i)).
Proof.
  intros Hi. destruct s as [l r]. unfold Lab2.round_step.
  rewrite (item_nth _ i (Pure.toy_key k 0))
    by (unfold len; rewrite length_map, range_length; lia).
  rewrite map_nth, range_nth by exact Hi. reflexivity.
Qed.

Lemma encrypt_block_fold_upto (block k rounds : Z) :
  rounds <= 65 ->
  let st := fold_left Pure.toy_round (map (Pure.toy_key k) (range rounds))
                      (Lab2.split_block block) in
  Lab2.encrypt_block block k rounds = Ok (Lab2.combine_halves (snd st) (fst st)) /\
  Spec.words st.
Proof.
  intros Hrounds st.
  split; [|apply (rounds_keep _ Spec.words toy_round_words), split_block_words].
  unfold Lab2.encrypt_block.
  rewrite (bind_ok _ _ _ (generate_round_keys_upto k rounds Hrounds)).
  rewrite (for_each_keyed _ Pure.toy_round (Pure.toy_key k))
    by (intros s i Hi; apply round_step_keyed_upto, range_In, Hi).
  fold st. destruct st as [l r]. reflexivity.
Qed.

Lemma decrypt_block_fold_upto (block k rounds : Z) :
  rounds <= 65 ->
  let st := fold_left Pure.toy_round (rev (map (Pure.toy_key k) (range rounds)))
                      (Lab2.split_block block) in
  Lab2.decrypt_block block k rounds = Ok (Lab2.combine_halves (snd st) (fst st)) /\
  Spec.words st.
Proof.
  intros Hrounds st.
  split; [|apply (rounds_keep _ Spec.words toy_round_words), split_block_words].
  unfold Lab2.decrypt_block.
  rewrite (bind_ok _ _ _ (generate_round_keys_upto k rounds Hrounds)).
  rewrite (for_each_keyed _ Pure.toy_round (Pure.toy_key k))
    by (intros s i Hi; apply round_step_keyed_upto, range_In, in_rev, Hi).
  unfold range_down. rewrite map_rev.
  fold st. destruct st as [l r]. reflexivity.
Qed.

Lemma combine_swapped_split (block : Z) :
  let st := Pure.swap (Lab2.split_block block) in
  Lab2.combine_halves (snd st) (fst st) = block mod 2 ^ 64.
Proof. apply combine_split_mod. Qed.

(** X6: with at most 65 rounds, and for every integer block and master
    key, [encrypt_block] returns a 64-bit block that [decrypt_block] maps
    to the block reduced to 64 bits, and [decrypt_block] returns a 64-bit
    block that [encrypt_block] maps to it as well: on 64-bit blocks the two
    are inverse permutations. *)
Theorem toy_block_permutation (block master_key rounds : Z) :
  rounds <= 65 ->
  (exists c, Lab2.encrypt_block block master_key rounds = Ok c /\ Spec.word64 c /\
             Lab2.decrypt_block c master_key rounds = Ok (block mod 2 ^ 64)) /\
  (exists d, Lab2.decrypt_block block master_key rounds = Ok d /\ Spec.word64 d /\
             Lab2.encrypt_block d master_key rounds = Ok (block mod 2 ^ 64)).
Proof.
  intros Hrounds.
  set (ks := map (Pure.toy_key master_key) (range rounds)).
  split.
  - destruct (encrypt_block_fold_upto block master_key rounds Hrounds) as [Henc [Hl Hr]].
    fold ks in Henc, Hl, Hr. set (st := fold_left Pure.toy_round ks _) in *.
    exists (Lab2.combine_halves (snd st) (fst st)).
    split; [exact Henc|]. split; [apply split_combine_words; assumption|].
    destruct (decrypt_block_fold_upto (Lab2.combine_halves (snd st) (fst st))
                                      master_key rounds Hrounds) as [-> _].
    fold ks. rewrite (split_combine _ _ Hr Hl).
    change (snd st, fst st) with (Pure.swap st). unfold st.
    rewrite (rounds_undo _ _ toy_round_undo). f_equal. apply combine_swapped_split.
  - destruct (decrypt_block_fold_upto block master_key rounds Hrounds) as [Hdec [Hl Hr]].
    fold ks in Hdec, Hl, Hr. set (st := fold_left Pure.toy_round (rev ks) _) in *.
    exists (Lab2.combine_halves (snd st) (fst st)).
    split; [exact Hdec|]. split; [apply split_combine_words; assumption|].
    destruct (encrypt_block_fold_upto (Lab2.combine_halves (snd st) (fst st))
                                      master_key rounds Hrounds) as [-> _].
    fold ks. rewrite (split_combine _ _ Hr Hl).
    change (snd st, fst st) with (Pure.swap st). unfold st.
    pose proof (rounds_undo _ _ toy_round_undo (rev ks) (Lab2.split_block block))
      as Hundo.
    rewrite rev_involutive in Hundo. rewrite Hundo.
    f_equal. apply combine_swapped_split.
Qed.

Lemma toy_block_permutation_witness :
  0 <= 65 /\
  exists c, Lab2.encrypt_block (-1) 7 0 = Ok c /\ Spec.word64 c /\
            Lab2.decrypt_block c 7 0 = Ok ((-1) mod 2 ^ 64).
Proof.
  split; [lia|]. exact (proj1 (toy_block_permutation (-1) 7 0 ltac:(lia))).
Defined.

(** ** lab2: texts and blocks *)

Lemma encrypt_block_word (block key c : Z) :
  Lab2.encrypt_block block key 16 = Ok c -> Spec.word64 c.
Proof.
  destruct (encrypt_block_fold_upto block key 16 ltac:(lia)) as [-> [Hl Hr]].
  intros Hc. apply Ok_inj in Hc. subst c. apply split_combine_words; assumption.
Qed.

Lemma encrypted_blocks_undo (text : str) (key : Z) :
  (encrypted <- Lab2.encrypt_text text key ;;
   map_each (fun block => Lab2.decrypt_block block key 16) encrypted)
  = Lab2.text_to_blocks text 8.
Proof.
  unfold Lab2.encrypt_text.
  destruct (Lab2.text_to_blocks text 8) as [blocks|e] eqn:Hblocks; cbn [bind];
    [|reflexivity].
  apply map_each_undo, Forall_forall. intros b Hb.
  rewrite (bind_ok _ _ _ (encrypt_block_fold b key)).
  apply decrypt_block_of_rounds.
  apply text_to_blocks_words in Hblocks. rewrite Forall_forall in Hblocks.
  apply Hblocks, Hb.
Qed.

(** X7: under every key the block cipher cancels out of the text
    pipeline.  Decrypting the blocks of [encrypt_text] gives the blocks of
    [text_to_blocks], and [decrypt_text] of them is [blocks_to_text] of
    those; an exception of [text_to_blocks] or [blocks_to_text] is the
    only way for the round trip to fail. *)
Theorem cipher_cancels_in_text_pipeline (text : str) (key : Z) :
  (encrypted <- Lab2.encrypt_text text key ;;
   map_each (fun block => Lab2.decrypt_block block key 16) encrypted)
  = Lab2.text_to_blocks text 8 /\
  (encrypted <- Lab2.encrypt_text text key ;; Lab2.decrypt_text encrypted key)
  = (blocks <- Lab2.text_to_blocks text 8 ;; Lab2.blocks_to_text blocks 8).
Proof.
  split; [apply encrypted_blocks_undo|].
  pose proof (encrypted_blocks_undo text key) as Hundo.
  unfold Lab2.decrypt_text.
  destruct (Lab2.encrypt_text text key) as [encrypted|e]; cbn [bind] in *.
  - rewrite Hundo. reflexivity.
  - rewrite <- Hundo. reflexivity.
Qed.

Lemma toy_text_roundtrip_when_witness :
  utf8_encode privet = Ok (map byte_of_int
    [208; 159; 209; 128; 208; 184; 208; 178; 208; 181; 209; 130; 44; 32;
     208; 188; 208; 184; 209; 128; 33]) /\
  (encrypted <- Lab2.encrypt_text privet 5 ;; Lab2.decrypt_text encrypted 5)
  = Ok privet.
Proof.
  assert (utf8_encode privet = Ok (map byte_of_int
    [208; 159; 209; 128; 208; 184; 208; 178; 208; 181; 209; 130; 44; 32;
     208; 188; 208; 184; 209; 128; 33])) as Henc by reflexivity.
  split; [exact Henc|].
  apply (toy_text_roundtrip_when privet 5 _ Henc).
  left. vm_compute. discriminate.
Defined.

Lemma pack_be64_length (block : Z) (b : bytes) :
  pack_be64 block = Ok b -> length b = 8%nat.
Proof.
  unfold pack_be64. destruct ((0 <=? block) && (block <? 2 ^ 64)); [|discriminate].
  intros Hb. apply Ok_inj in Hb. subst b.
  rewrite length_rev, le_bytes_length. reflexivity.
Qed.

Lemma packed_length (blocks : list Z) (acc out : bytes) :
  for_each (fun acc block => b <- pack_be64 block ;; Ok (acc ++ b)) blocks acc = Ok out ->
  len out = len acc + 8 * len blocks.
Proof.
  revert acc. induction blocks as [|z blocks IH]; intros acc; cbn [for_each].
  - intros Hout. apply Ok_inj in Hout. subst out. unfold len. cbn [length]. lia.
  - destruct (pack_be64 z) as [b|e] eqn:Hz; cbn [bind]; [|discriminate].
    intros Hout. rewrite (IH _ Hout), len_app. unfold len at 2.
    rewrite (pack_be64_length z b Hz). unfold len. cbn [length]. lia.
Qed.

(** X9: a text that can be encoded is always cut into blocks:
    [text_to_blocks] returns one 64-bit block for every 8 bytes of its
    UTF-8 form, rounded up, and [encrypt_text] returns as many 64-bit
    blocks under every key. *)
Theorem text_block_count (text : str) (key : Z) (data : bytes) :
  utf8_encode text = Ok data ->
  (exists blocks, Lab2.text_to_blocks text 8 = Ok blocks /\
                  len blocks = (len data + 7) / 8 /\ Forall Spec.word64 blocks) /\
  (exists encrypted, Lab2.encrypt_text text key = Ok encrypted /\
                     len encrypted = (len data + 7) / 8 /\
                     Forall Spec.word64 encrypted).
Proof.
  intros Henc.
  assert (exists blocks, Lab2.text_to_blocks text 8 = Ok blocks /\
                         len blocks = (len data + 7) / 8) as [blocks [Hblocks Hcount]].
  { unfold Lab2.text_to_blocks. rewrite Henc. cbn [bind].
    assert (0 <= len data mod 8 < 8) as Hm by (apply Z.mod_pos_bound; lia).
    pose proof (len_nonneg data) as Hnn.
    destruct (Z.eq_dec (len data mod 8) 0) as [Hal | Hun].
    - rewrite pad_bytes_aligned by exact Hal. cbn [bind].
      destruct (blocks_of_bytes _ Hal) as [blocks [-> Hback]].
      exists blocks. split; [reflexivity|].
      apply packed_length in Hback. change (len []) with 0 in Hback.
      Z.div_mod_to_equations. lia.
    - destruct (pad_bytes_unaligned data Hun) as [Hp [-> Hal]]. cbn [bind].
      destruct (blocks_of_bytes _ Hal) as [blocks [-> Hback]].
      exists blocks. split; [reflexivity|].
      apply packed_length in Hback. change (len []) with 0 in Hback.
      rewrite len_app in Hback. unfold len in Hback at 2.
      rewrite repeat_length, Z2Nat.id in Hback by lia.
      Z.div_mod_to_equations. lia. }
  split.
  - exists blocks. split; [exact Hblocks|]. split; [exact Hcount|].
    apply (text_to_blocks_words text blocks Hblocks).
  - pose proof (encrypted_blocks_undo text key) as Hundo.
    unfold Lab2.encrypt_text in *. rewrite Hblocks in *. cbn [bind] in *.
    destruct (map_each (fun block => Lab2.encrypt_block block key 16) blocks)
      as [encrypted|e] eqn:Hmap; cbn [bind] in Hundo; [|discriminate].
    exists encrypted. split; [reflexivity|]. split.
    + unfold len. rewrite (map_each_length _ _ _ Hmap). exact Hcount.
    + apply (map_each_Forall _ Spec.word64 _ _ (fun b c => encrypt_block_word b key c) Hmap).
Qed.

Lemma text_block_count_witness :
  utf8_encode abcdefg_soh = Ok (map byte_of_int [97; 98; 99; 100; 101; 102; 103; 1]) /\
  exists blocks, Lab2.text_to_blocks abcdefg_soh 8 = Ok blocks /\
                 len blocks = (8 + 7) / 8 /\ Forall Spec.word64 blocks.
Proof.
  assert (utf8_encode abcdefg_soh
          = Ok (map byte_of_int [97; 98; 99; 100; 101; 102; 103; 1])) as Henc
    by reflexivity.
  split; [exact Henc|]. exact (proj1 (text_block_count abcdefg_soh 0 _ Henc)).
Defined.

Lemma map_each_app {A B} (f : A -> result B) (l1 l2 : list A) :
  map_each f (l1 ++ l2)
  = (bs1 <- map_each f l1 ;; bs2 <- map_each f l2 ;; Ok (bs1 ++ bs2)).
Proof.
  induction l1 as [|a l1 IH]; cbn [app map_each].
  - destruct (map_each f l2); reflexivity.
  - destruct (f a) as [b|e]; cbn [bind]; [|reflexivity]. rewrite IH.
    destruct (map_each f l1) as [bs1|e]; cbn [bind]; [|reflexivity].
    destruct (map_each f l2) as [bs2|e]; reflexivity.
Qed.

Lemma concat_repeat_single {A} (a : A) (n : nat) : concat (repeat [a] n) = repeat a n.
Proof. induction n as [|n IH]; cbn [repeat concat app]; congruence. Qed.

(** Appending [n] copies of an ASCII character appends [n] bytes. *)
Lemma utf8_encode_ascii_suffix (text : str) (data : bytes) (p : Z) (n : nat) :
  utf8_encode text = Ok data -> 0 <= p < 128 ->
  utf8_encode (text ++ repeat p n) = Ok (data ++ repeat (byte_of_int p) n).
Proof.
  unfold utf8_encode. intros Henc Hp. rewrite map_each_app.
  destruct (map_each encode_point text) as [pts|e]; cbn [bind] in *; [|discriminate].
  apply Ok_inj in Henc. subst data.
  rewrite (map_each_ok encode_point (fun c => [c])).
  - cbn [bind]. rewrite map_repeat, concat_app, concat_repeat_single, map_app.
    rewrite map_repeat. reflexivity.
  - intros c Hc. apply repeat_spec in Hc. subst c. unfold encode_point.
    replace ((0 <=? p) && (p <? 128)) with true
      by (symmetry; apply andb_true_iff; split; [apply Z.leb_le | apply Z.ltb_lt]; lia).
    reflexivity.
Qed.

(** X10: [text_to_blocks] does not tell its own padding from text.  A text
    whose UTF-8 form is [p] bytes short of whole blocks, [1 <= p < 8],
    gives the same blocks, and so the same ciphertext under every key, as
    that text followed by [p] characters of code [p]. *)
Theorem padding_collides_with_text (text : str) (data : bytes) (p : Z) :
  utf8_encode text = Ok data -> 1 <= p < 8 -> len data mod 8 = 8 - p ->
  Lab2.text_to_blocks (text ++ repeat p (Z.to_nat p)) 8 = Lab2.text_to_blocks text 8 /\
  forall key,
    Lab2.encrypt_text (text ++ repeat p (Z.to_nat p)) key = Lab2.encrypt_text text key.
Proof.
  intros Henc Hp Hmod.
  assert (Lab2.text_to_blocks (text ++ repeat p (Z.to_nat p)) 8
          = Lab2.text_to_blocks text 8) as Hsame.
  { unfold Lab2.text_to_blocks.
    rewrite (utf8_encode_ascii_suffix text data p _ Henc) by lia.
    rewrite Henc. cbn [bind].
    destruct (pad_bytes_unaligned data ltac:(lia)) as [_ [Hpad Hal]].
    rewrite Hmod in Hpad, Hal. replace (8 - (8 - p)) with p in Hpad, Hal by lia.
    rewrite Hpad, (pad_bytes_aligned _ Hal). reflexivity. }
  split; [exact Hsame|]. intros key. unfold Lab2.encrypt_text. rewrite Hsame.
  reflexivity.
Qed.

Lemma padding_collides_with_text_witness :
  utf8_encode [97; 98; 99; 100; 101; 102; 103]
  = Ok (map byte_of_int [97; 98; 99; 100; 101; 102; 103]) /\
  1 <= 1 < 8 /\
  len (map byte_of_int [97; 98; 99; 100; 101; 102; 103]) mod 8 = 8 - 1 /\
  Lab2.text_to_blocks abcdefg_soh 8
  = Lab2.text_to_blocks [97; 98; 99; 100; 101; 102; 103] 8.
Proof.
  assert (utf8_encode [97; 98; 99; 100; 101; 102; 103]
          = Ok (map byte_of_int [97; 98; 99; 100; 101; 102; 103])) as Henc
    by reflexivity.
  split; [exact Henc|]. split; [lia|]. split; [reflexivity|].
  exact (proj1 (padding_collides_with_text _ _ 1 Henc ltac:(lia) eq_refl)).
Defined.

(** ** lab3: padding at its edges *)

(** X11: [pkcs7_pad] over its block sizes.  Size 0 raises
    [ZeroDivisionError]; a negative size returns the data unchanged; a
    positive size appends [p] bytes of value [p], [1 <= p <= block_size],
    making the length a multiple of the size, unless [p] exceeds 255,
    where building the padding raises [ValueError]. *)
Theorem pkcs7_pad_block_sizes (data : bytes) (block_size : Z) :
  (block_size = 0 -> Lab3.pkcs7_pad data block_size = Raise ZeroDivisionError) /\
  (block_size < 0 -> Lab3.pkcs7_pad data block_size = Ok data) /\
  (1 <= block_size ->
   let p := block_size - len data mod block_size in
   1 <= p <= block_size /\
   (p <= 255 ->
    Lab3.pkcs7_pad data block_size
    = Ok (data ++ repeat (byte_of_int p) (Z.to_nat p)) /\
    len (data ++ repeat (byte_of_int p) (Z.to_nat p)) mod block_size = 0) /\
   (256 <= p -> Lab3.pkcs7_pad data block_size = Raise ValueError)).
Proof.
  split; [intros ->; reflexivity|]. split.
  - intros Hneg. unfold Lab3.pkcs7_pad.
    replace (block_size =? 0) with false by (symmetry; apply Z.eqb_neq; lia).
    pose proof (Z.mod_neg_bound (len data) block_size Hneg) as Hm.
    rewrite list_mul_single.
    replace (Z.to_nat (block_size - len data mod block_size)) with 0%nat by lia.
    cbn [repeat bytes_of_ints map_each bind]. rewrite app_nil_r. reflexivity.
  - intros Hpos p.
    pose proof (Z.mod_pos_bound (len data) block_size ltac:(lia)) as Hm.
    split; [unfold p; lia|]. unfold Lab3.pkcs7_pad.
    replace (block_size =? 0) with false by (symmetry; apply Z.eqb_neq; lia).
    fold p. rewrite list_mul_single. split.
    + intros Hsmall. rewrite bytes_of_ints_repeat by (unfold p in *; lia).
      split; [reflexivity|].
      rewrite len_app. unfold len at 2. rewrite repeat_length, Z2Nat.id by (unfold p; lia).
      unfold p. replace (len data + (block_size - len data mod block_size))
        with (len data - len data mod block_size + 1 * block_size) by lia.
      rewrite Z_mod_plus_full, Zminus_mod_idemp_r, Z.sub_diag. apply Z.mod_0_l. lia.
    + intros Hbig. destruct (Z.to_nat p) as [|m] eqn:Em; [lia|].
      cbn [repeat]. unfold bytes_of_ints. cbn [map_each].
      replace ((0 <=? p) && (p <? 256)) with false
        by (symmetry; apply andb_false_iff; right; apply Z.ltb_ge; lia).
      reflexivity.
Qed.

Lemma int_of_byte_zero (q : Byte.byte) : int_of_byte q = 0 <-> q = Byte.x00.
Proof.
  split; [|intros ->; reflexivity].
  intros Hq. rewrite <- (byte_of_int_of_byte q), Hq. reflexivity.
Qed.

Lemma all_zero_test (init : bytes) :
  existsb (fun p => negb (int_of_byte p =? 0)) init = false
  <-> Forall (eq Byte.x00) init.
Proof.
  induction init as [|q init IH]; cbn [existsb].
  - split; [constructor | reflexivity].
  - rewrite orb_false_iff, negb_false_iff, Z.eqb_eq, int_of_byte_zero, IH.
    split.
    + intros [-> Hrest]. constructor; [reflexivity | exact Hrest].
    + intros Hf. inversion Hf; subst. split; [reflexivity | assumption].
Qed.

Lemma pkcs7_unpad_zero_test (init : bytes) :
  Lab3.pkcs7_unpad (init ++ [Byte.x00])
  = if existsb (fun p => negb (int_of_byte p =? 0)) init
    then Raise ValueError else Ok [].
Proof.
  unfold Lab3.pkcs7_unpad. rewrite item_last. cbn [bind].
  change (int_of_byte Byte.x00) with 0. change (- 0) with 0.
  pose proof (len_nonneg (init ++ [Byte.x00])) as Hnn.
  replace (0 >? len (init ++ [Byte.x00])) with false
    by (symmetry; rewrite Z.gtb_ltb; apply Z.ltb_ge; lia).
  unfold slice_from, slice_to, clamp. cbn [Z.ltb Z.compare].
  replace (Z.to_nat (Z.min 0 (len (init ++ [Byte.x00])))) with 0%nat by lia.
  cbn [skipn firstn orb]. rewrite existsb_app. cbn [existsb].
  change (int_of_byte Byte.x00 =? 0) with true. cbn [negb orb].
  rewrite orb_false_r. reflexivity.
Qed.

Lemma pkcs7_unpad_zero_tail (init : bytes) :
  Lab3.pkcs7_unpad (init ++ [Byte.x00]) = Ok [] \/
  Lab3.pkcs7_unpad (init ++ [Byte.x00]) = Raise ValueError.
Proof.
  rewrite pkcs7_unpad_zero_test. destruct (existsb _ init); [right | left]; reflexivity.
Qed.

(** X12: on a buffer that ends in a zero byte [pkcs7_unpad] compares the
    whole buffer with 0: it returns the empty buffer when every byte is
    zero and raises [ValueError] otherwise. *)
Theorem pkcs7_unpad_zero_last (init : bytes) :
  (Forall (eq Byte.x00) init -> Lab3.pkcs7_unpad (init ++ [Byte.x00]) = Ok []) /\
  (~ Forall (eq Byte.x00) init ->
   Lab3.pkcs7_unpad (init ++ [Byte.x00]) = Raise ValueError).
Proof.
  rewrite pkcs7_unpad_zero_test. split.
  - intros Hzero. apply all_zero_test in Hzero. rewrite Hzero. reflexivity.
  - intros Hnz. destruct (existsb _ init) eqn:Hex; [reflexivity|].
    exfalso. apply Hnz, all_zero_test. exact Hex.
Qed.

Lemma existsb_all_same (b : Byte.byte) (l : bytes) :
  existsb (fun q => negb (int_of_byte q =? int_of_byte b)) l = false ->
  l = repeat b (length l).
Proof.
  induction l as [|q l IH]; cbn [existsb length repeat]; [reflexivity|].
  rewrite orb_false_iff, negb_false_iff, Z.eqb_eq. intros [Hq Hrest].
  rewrite <- (IH Hrest). f_equal.
  rewrite <- (byte_of_int_of_byte q), Hq. apply byte_of_int_of_byte.
Qed.

(** X13: what [pkcs7_unpad] accepts, with a last byte [p >= 1], is its
    result followed by exactly [p] bytes of value [p]; when moreover
    [p <= 8] and the buffer consists of whole blocks, [pkcs7_pad] of the
    result is the buffer again. *)
Theorem pkcs7_pad_unpad (init : bytes) (b : Byte.byte) (out : bytes) :
  let data := init ++ [b] in
  let p := int_of_byte b in
  1 <= p -> Lab3.pkcs7_unpad data = Ok out ->
  data = out ++ repeat b (Z.to_nat p) /\
  (p <= 8 -> len data mod 8 = 0 -> Lab3.pkcs7_pad out 8 = Ok data).
Proof.
  intros data p Hp Hunpad.
  pose proof (pkcs7_unpad_cases init b Hp) as Hcases. cbv zeta in Hcases.
  fold data p in Hcases. rewrite Hcases in Hunpad. clear Hcases.
  destruct (p >? len data) eqn:Hlong; [discriminate|].
  destruct (existsb _ _) eqn:Hsame; [discriminate|]. cbn [orb] in Hunpad.
  apply Ok_inj in Hunpad. rewrite Z.gtb_ltb in Hlong. apply Z.ltb_ge in Hlong.
  apply existsb_all_same in Hsame.
  rewrite length_skipn in Hsame.
  replace (length data - (length data - Z.to_nat p))%nat with (Z.to_nat p) in Hsame
    by (unfold len in Hlong; lia).
  assert (data = out ++ repeat b (Z.to_nat p)) as Hshape
    by (rewrite <- Hunpad, <- Hsame; symmetry; apply firstn_skipn).
  split; [exact Hshape|]. intros Hp8 Hal.
  rewrite pkcs7_pad_default.
  assert (len out = len data - p) as Hout.
  { pose proof (f_equal len Hshape) as Hlen. rewrite len_app in Hlen.
    assert (len (repeat b (Z.to_nat p)) = p) as Hrep
      by (unfold len; rewrite repeat_length; lia).
    rewrite Hrep in Hlen. lia. }
  assert (8 - len out mod 8 = p) as ->.
  { rewrite Hout. Z.div_mod_to_equations. lia. }
  fold p. unfold p at 1. rewrite byte_of_int_of_byte, <- Hshape. reflexivity.
Qed.

Lemma pkcs7_pad_unpad_witness :
  1 <= int_of_byte Byte.x02 /\
  Lab3.pkcs7_unpad ([Byte.x61; Byte.x02] ++ [Byte.x02]) = Ok [Byte.x61] /\
  [Byte.x61; Byte.x02] ++ [Byte.x02] = [Byte.x61] ++ repeat Byte.x02 2.
Proof.
  assert (1 <= int_of_byte Byte.x02) as Hp by (vm_compute; discriminate).
  assert (Lab3.pkcs7_unpad ([Byte.x61; Byte.x02] ++ [Byte.x02]) = Ok [Byte.x61])
    as Hunpad by reflexivity.
  split; [exact Hp|]. split; [exact Hunpad|].
  exact (proj1 (pkcs7_pad_unpad [Byte.x61; Byte.x02] Byte.x02 [Byte.x61] Hp Hunpad)).
Defined.

(** ** lab3: the block cipher in both directions, and its errors *)

(** Running the rounds over [items] and then over [items] reversed. *)
Lemma gost_rounds_undo (items : list Z) (b : bytes) (k : list Z) :
  length b = 8%nat -> length k = 8%nat ->
  exists c,
    (st0 <- Lab3.unpack_pair b ;;
     '(n1, n2) <- for_each (Lab3.gost_round k) items st0 ;;
     pack_le32 [n2; n1]) = Ok c /\
    length c = 8%nat /\
    (st0 <- Lab3.unpack_pair c ;;
     '(n1, n2) <- for_each (Lab3.gost_round k) (rev items) st0 ;;
     pack_le32 [n2; n1]) = Ok b.
Proof.
  intros Hb Hk.
  destruct (unpack_pair_split b Hb) as [Hunpack [Hwords Hpack]].
  set (st0 := (le_int (firstn 4 b), le_int (skipn 4 b))) in *.
  destruct (gost_block_fold items b k st0 Hunpack Hwords Hk) as [Henc Hst].
  set (ks := map (fun i => nth (Z.to_nat (i mod 8)) k 0) items) in *.
  set (st := fold_left Pure.gost_step ks st0) in *.
  exists (le_bytes 4 (snd st) ++ le_bytes 4 (fst st)).
  split; [exact Henc|]. split; [rewrite length_app, !le_bytes_length; reflexivity|].
  assert (Lab3.unpack_pair (le_bytes 4 (snd st) ++ le_bytes 4 (fst st))
          = Ok (Pure.swap st)) as Hswap
    by (destruct Hst; apply unpack_pair_pack; assumption).
  assert (Spec.words (Pure.swap st)) as Hwords'
    by (destruct Hst; split; assumption).
  destruct (gost_block_fold (rev items) _ k _ Hswap Hwords' Hk) as [Hdec _].
  rewrite Hdec, map_rev. fold ks. unfold st.
  rewrite (rounds_undo _ _ gost_step_undo).
  unfold Pure.swap, st0. cbn [fst snd]. rewrite Hpack. reflexivity.
Qed.

(** X14: with an eight-word key both directions return 8-byte blocks, and
    encrypting the decryption of an 8-byte block gives the block back;
    together with the other order, the two are inverse permutations of the
    8-byte blocks. *)
Theorem gost_encrypt_decrypt (b : bytes) (k : list Z) :
  length b = 8%nat -> length k = 8%nat ->
  (exists c, Lab3.gost_encrypt_block b k = Ok c /\ length c = 8%nat) /\
  (exists d, Lab3.gost_decrypt_block b k = Ok d /\ length d = 8%nat /\
             Lab3.gost_encrypt_block d k = Ok b).
Proof.
  intros Hb Hk. split.
  - destruct (gost_rounds_undo (range 32) b k Hb Hk) as [c [Henc [Hc _]]].
    exists c. split; [exact Henc | exact Hc].
  - destruct (gost_rounds_undo (range_down 32) b k Hb Hk) as [d [Hdec [Hd Henc]]].
    exists d. split; [exact Hdec|]. split; [exact Hd|].
    unfold range_down in Henc. rewrite rev_involutive in Henc. exact Henc.
Qed.

Lemma gost_encrypt_decrypt_witness :
  length (repeat Byte.x00 8) = 8%nat /\ length (repeat 0 8) = 8%nat /\
  exists d, Lab3.gost_decrypt_block (repeat Byte.x00 8) (repeat 0 8) = Ok d /\
            length d = 8%nat /\
            Lab3.gost_encrypt_block d (repeat 0 8) = Ok (repeat Byte.x00 8).
Proof.
  split; [reflexivity|]. split; [reflexivity|].
  exact (proj2 (gost_encrypt_decrypt (repeat Byte.x00 8) (repeat 0 8) eq_refl eq_refl)).
Defined.

Lemma for_each_raise {St I} (body : St -> I -> result St)
      (before : list I) (a : I) (after : list I) (e : exn) (s : St) :
  (forall s' x, In x before -> exists s'', body s' x = Ok s'') ->
  (forall s', body s' a = Raise e) ->
  for_each body (before ++ a :: after) s = Raise e.
Proof.
  intros Hbefore Ha. revert s.
  induction before as [|x before IH]; intros s; cbn [app for_each].
  - rewrite Ha. reflexivity.
  - destruct (Hbefore s x (or_introl eq_refl)) as [s'' ->]. cbn [bind].
    apply IH. intros s' y Hy. apply Hbefore. right. exact Hy.
Qed.

Lemma item_beyond {A} (l : list A) (i : Z) :
  len l <= i -> item l i = Raise IndexError.
Proof.
  intros Hi. pose proof (len_nonneg l) as Hnn.
  assert ((i <? 0) = false) as Hpos by (apply Z.ltb_ge; lia).
  unfold item. cbv zeta. rewrite Hpos. cbv iota. rewrite Hpos.
  replace (nth_error l (Z.to_nat i)) with (@None A); [reflexivity|].
  symmetry. apply nth_error_None. unfold len in Hi. lia.
Qed.

Lemma gost_round_short_key (key : list Z) (st : Z * Z) (i : Z) :
  len key <= i mod 8 -> Lab3.gost_round key st i = Raise IndexError.
Proof.
  intros Hi. destruct st as [n1 n2]. unfold Lab3.gost_round.
  rewrite item_beyond by exact Hi. reflexivity.
Qed.

Lemma gost_round_in_key (key : list Z) (st : Z * Z) (i : Z) :
  0 <= i mod 8 < len key -> exists st', Lab3.gost_round key st i = Ok st'.
Proof.
  intros Hi. destruct st as [n1 n2]. unfold Lab3.gost_round.
  rewrite (item_nth key (i mod 8) 0) by exact Hi. cbn [bind]. eexists. reflexivity.
Qed.

(** X15: the errors of the block functions.  A block that is not 8 bytes
    long makes both raise the length error of [struct], whatever the key;
    an 8-byte block with a key of fewer than eight words makes both raise
    [IndexError]. *)
Theorem gost_block_errors (block : bytes) (key : list Z) :
  (length block <> 8%nat ->
   Lab3.gost_encrypt_block block key = Raise StructError /\
   Lab3.gost_decrypt_block block key = Raise StructError) /\
  (length block = 8%nat -> (length key < 8)%nat ->
   Lab3.gost_encrypt_block block key = Raise IndexError /\
   Lab3.gost_decrypt_block block key = Raise IndexError).
Proof.
  split.
  - intros Hlen. split; [|apply gost_decrypt_block_short, Hlen].
    unfold Lab3.gost_encrypt_block, Lab3.unpack_pair, unpack_le32.
    replace (Nat.eqb (length block) (4 * 2)) with false
      by (symmetry; apply Nat.eqb_neq; exact Hlen).
    reflexivity.
  - intros Hblock Hkey.
    destruct (unpack_pair_split block Hblock) as [Hunpack _].
    unfold Lab3.gost_encrypt_block, Lab3.gost_decrypt_block.
    rewrite Hunpack. cbn [bind]. split.
    + destruct (range_split (len key) 32 ltac:(unfold len; lia)) as [after ->].
      rewrite (for_each_raise _ _ _ _ IndexError); [reflexivity| |].
      * intros s' x Hx. apply range_In in Hx. apply gost_round_in_key.
        rewrite Z.mod_small by (unfold len in *; lia). lia.
      * intros s'. apply gost_round_short_key.
        rewrite Z.mod_small by (unfold len in *; lia). lia.
    + change (range_down 32) with (31 :: range_down 31). cbn [for_each].
      rewrite gost_round_short_key by (change (31 mod 8) with 7; unfold len; lia).
      reflexivity.
Qed.

Lemma gost_block_errors_witness :
  length (repeat Byte.x00 8) = 8%nat /\ (length (@nil Z) < 8)%nat /\
  Lab3.gost_encrypt_block (repeat Byte.x00 8) [] = Raise IndexError.
Proof.
  split; [reflexivity|]. split; [cbn [length]; lia|].
  exact (proj1 (proj2 (gost_block_errors (repeat Byte.x00 8) []) eq_refl
                      ltac:(cbn [length]; lia))).
Defined.

(** ** lab3: whole buffers *)

(** The generator over [range(0, len(data), 8)] visits the 8-byte slices of
    the buffer in order. *)
Lemma slices_are_chunks {B} (f : bytes -> result B) (fuel : nat) :
  forall pre rest, (length rest <= fuel)%nat ->
    map_each (fun i => f (slice (pre ++ rest) i (i + 8)))
             (range_from fuel (len pre) (len (pre ++ rest)) 8)
    = map_each f (Pure.chunks fuel rest).
Proof.
  induction fuel as [|fuel IH]; intros pre rest Hfuel; [reflexivity|].
  cbn [range_from Pure.chunks]. destruct rest as [|b rest'].
  - replace (len pre <? len (pre ++ [])) with false
      by (symmetry; rewrite app_nil_r; apply Z.ltb_irrefl).
    reflexivity.
  - set (rest := b :: rest') in *.
    assert (0 < len rest) as Hpos by (unfold len, rest; cbn [length]; lia).
    replace (len pre <? len (pre ++ rest)) with true
      by (symmetry; apply Z.ltb_lt; rewrite len_app; lia).
    cbn [map_each]. rewrite slice_block.
    assert (pre ++ rest = (pre ++ firstn 8 rest) ++ skipn 8 rest) as Hsplit
      by (rewrite <- app_assoc, firstn_skipn; reflexivity).
    assert (len pre + 8 = len (pre ++ firstn 8 rest) \/ skipn 8 rest = []) as Hnext.
    { destruct (Nat.le_gt_cases 8 (length rest)) as [Hlong | Hshort].
      - left. rewrite len_app. unfold len. rewrite length_firstn. lia.
      - right. apply skipn_all2. lia. }
    destruct Hnext as [Hnext | Hlast].
    + rewrite Hnext, Hsplit, IH
        by (rewrite length_skipn; unfold rest in *; cbn [length] in *; lia).
      reflexivity.
    + rewrite Hlast. destruct fuel as [|fuel']; [reflexivity|].
      cbn [range_from Pure.chunks].
      replace (len pre + 8 <? len (pre ++ rest)) with false; [reflexivity|].
      symmetry. apply Z.ltb_ge. rewrite len_app.
      apply skipn_all_iff in Hlast. unfold len. lia.
Qed.

Lemma join_blocks_chunks (f : bytes -> list Z -> result bytes)
      (data : bytes) (key : list Z) :
  Lab3.join_blocks f data key
  = (outs <- map_each (fun block => f block key) (Pure.chunks (length data) data) ;;
     Ok (concat outs)).
Proof.
  unfold Lab3.join_blocks, range_step. cbn [Z.leb Z.compare].
  unfold len at 1. rewrite Nat2Z.id.
  rewrite <- (slices_are_chunks (fun block => f block key) (length data) [] data)
    by apply Nat.le_refl.
  reflexivity.
Qed.

Lemma chunks_concat (blocks : list bytes) (fuel : nat) :
  Forall (fun block => length block = 8%nat) blocks ->
  (length (concat blocks) <= fuel)%nat ->
  Pure.chunks fuel (concat blocks) = blocks.
Proof.
  intros Hall. revert fuel.
  induction Hall as [|block blocks Hblock _ IH]; intros fuel Hfuel.
  - destruct fuel; reflexivity.
  - cbn [concat] in *. rewrite length_app, Hblock in Hfuel.
    destruct fuel as [|fuel]; [lia|]. cbn [Pure.chunks].
    destruct (block ++ concat blocks) as [|q rest] eqn:Hdata.
    + apply (f_equal (@length _)) in Hdata. rewrite length_app, Hblock in Hdata.
      discriminate Hdata.
    + rewrite <- Hdata, firstn_app, skipn_app, Hblock, Nat.sub_diag.
      rewrite (firstn_all2 (n := 8) block), (skipn_all2 (n := 8) block) by lia.
      cbn [firstn skipn app]. rewrite app_nil_r, IH by lia.
      reflexivity.
Qed.

Lemma chunks_aligned (fuel : nat) :
  forall data, (length data <= fuel)%nat -> len data mod 8 = 0 ->
    Forall (fun block => length block = 8%nat) (Pure.chunks fuel data) /\
    concat (Pure.chunks fuel data) = data.
Proof.
  induction fuel as [|fuel IH]; intros data Hfuel Hmod.
  - destruct data; [split; [constructor | reflexivity] | cbn [length] in Hfuel; lia].
  - cbn [Pure.chunks]. destruct data as [|b data'];
      [split; [constructor | reflexivity]|].
    set (data := b :: data') in *.
    assert (8 <= length data)%nat as Hlong.
    { destruct (Nat.le_gt_cases 8 (length data)) as [H | H]; [exact H|].
      rewrite Z.mod_small in Hmod by (unfold len in *; lia).
      unfold len, data in Hmod. cbn [length] in Hmod. lia. }
    destruct (IH (skipn 8 data)) as [Hall Hcat].
    + rewrite length_skipn. unfold data in *. cbn [length] in *. lia.
    + replace (len (skipn 8 data)) with (len data + (-1) * 8)
        by (unfold len; rewrite length_skipn; lia).
      rewrite Z_mod_plus_full. exact Hmod.
    + split.
      * constructor; [rewrite length_firstn; lia | exact Hall].
      * cbn [concat]. rewrite Hcat. apply firstn_skipn.
Qed.

Lemma concat_blocks_length (blocks : list bytes) :
  Forall (fun block => length block = 8%nat) blocks ->
  length (concat blocks) = (8 * length blocks)%nat.
Proof.
  induction 1 as [|block blocks Hblock _ IH]; cbn [concat length]; [reflexivity|].
  rewrite length_app, Hblock, IH. lia.
Qed.

(** Encrypting whole blocks one by one, and decrypting the results. *)
Lemma gost_blocks_undo (blocks : list bytes) (key : list Z) :
  length key = 8%nat ->
  Forall (fun block => length block = 8%nat) blocks ->
  exists outs,
    map_each (fun block => Lab3.gost_encrypt_block block key) blocks = Ok outs /\
    Forall (fun block => length block = 8%nat) outs /\
    length outs = length blocks /\
    map_each (fun block => Lab3.gost_decrypt_block block key) outs = Ok blocks.
Proof.
  intros Hkey. induction 1 as [|block blocks Hblock _ [outs [Henc [Hall [Hlen Hdec]]]]].
  - exists []. repeat split; constructor.
  - destruct (gost_rounds_undo (range 32) block key Hblock Hkey) as [c [Hc [Hc8 Hback]]].
    exists (c :: outs). cbn [map_each].
    unfold Lab3.gost_encrypt_block at 1. rewrite Hc, Henc. cbn [bind].
    split; [reflexivity|]. split; [constructor; assumption|].
    split; [cbn [length]; rewrite Hlen; reflexivity|].
    unfold Lab3.gost_decrypt_block at 1, range_down. rewrite Hback, Hdec.
    reflexivity.
Qed.

Lemma encrypt_data_blocks (data : bytes) (key : list Z) :
  length key = 8%nat ->
  exists c,
    Lab3.encrypt_data data key = Ok c /\
    len c = len data + (8 - len data mod 8) /\
    Lab3.decrypt_data c key = Ok data.
Proof.
  intros Hkey. unfold Lab3.encrypt_data, Lab3.decrypt_data.
  rewrite (bind_ok _ _ _ (pkcs7_pad_default data)).
  assert (0 <= len data mod 8 < 8) as Hm by (apply Z.mod_pos_bound; lia).
  set (p := 8 - len data mod 8) in *.
  set (padded := data ++ repeat (byte_of_int p) (Z.to_nat p)).
  assert (len padded = len data + p) as Hlen
    by (unfold padded; rewrite len_app; unfold len at 2;
        rewrite repeat_length; lia).
  assert (len padded mod 8 = 0) as Hal.
  { rewrite Hlen. unfold p.
    replace (len data + (8 - len data mod 8))
      with (len data - len data mod 8 + 1 * 8) by lia.
    rewrite Z_mod_plus_full, Zminus_mod_idemp_r, Z.sub_diag. reflexivity. }
  destruct (chunks_aligned (length padded) padded (Nat.le_refl _) Hal) as [Hall Hcat].
  destruct (gost_blocks_undo _ key Hkey Hall) as [outs [Henc [Hall' [Hcount Hdec]]]].
  exists (concat outs). rewrite !join_blocks_chunks, Henc. cbn [bind].
  split; [reflexivity|]. split.
  - unfold len. rewrite (concat_blocks_length outs Hall'), Hcount.
    rewrite <- (concat_blocks_length _ Hall), Hcat. exact Hlen.
  - rewrite (chunks_concat outs _ Hall' (Nat.le_refl _)), Hdec. cbn [bind].
    rewrite Hcat. apply pkcs7_unpad_padded. unfold p. lia.
Qed.

(** X16: with an eight-word key, the in-memory work of [encrypt_file]
    followed by that of [decrypt_file] gives every buffer back, the empty
    one included. *)
Theorem gost_data_roundtrip (data : bytes) (key : list Z) :
  length key = 8%nat ->
  (c <- Lab3.encrypt_data data key ;; Lab3.decrypt_data c key) = Ok data.
Proof.
  intros Hkey. destruct (encrypt_data_blocks data key Hkey) as [c [-> [_ Hdec]]].
  exact Hdec.
Qed.

Lemma gost_data_roundtrip_witness :
  length (repeat 1 8) = 8%nat /\
  (c <- Lab3.encrypt_data [] (repeat 1 8) ;; Lab3.decrypt_data c (repeat 1 8)) = Ok [].
Proof.
  split; [reflexivity|]. exact (gost_data_roundtrip [] (repeat 1 8) eq_refl).
Defined.

(** X17: with an eight-word key [encrypt_file] never fails on its data, and
    its ciphertext is the data length rounded up to the next multiple of 8
    strictly above it: between 1 and 8 bytes longer. *)
Theorem encrypt_data_length (data : bytes) (key : list Z) :
  length key = 8%nat ->
  exists c, Lab3.encrypt_data data key = Ok c /\
            len c = 8 * (len data / 8 + 1) /\ len data < len c <= len data + 8.
Proof.
  intros Hkey. destruct (encrypt_data_blocks data key Hkey) as [c [Henc [Hlen _]]].
  exists c. split; [exact Henc|]. rewrite Hlen.
  pose proof (len_nonneg data). Z.div_mod_to_equations. lia.
Qed.

Lemma encrypt_data_length_witness :
  length (repeat 1 8) = 8%nat /\
  exists c, Lab3.encrypt_data (repeat Byte.x61 8) (repeat 1 8) = Ok c /\
            len c = 8 * (8 / 8 + 1) /\ 8 < len c <= 8 + 8.
Proof.
  split; [reflexivity|].
  exact (encrypt_data_length (repeat Byte.x61 8) (repeat 1 8) eq_refl).
Defined.

(** X18: a key that [load_key] returns always fits the cipher.  It has
    eight words of 32 bits, so no block function raises [IndexError] with
    it, and what [encrypt_file] computes with it from any data
    [decrypt_file] turns back into that data. *)
Theorem loaded_key_works (fs : Lab3.filesystem) (key_path : String.string)
        (key : list Z) :
  Lab3.load_key fs key_path = Ok key ->
  length key = 8%nat /\ Forall Spec.word32 key /\
  forall data, (c <- Lab3.encrypt_data data key ;; Lab3.decrypt_data c key) = Ok data.
Proof.
  unfold Lab3.load_key. destruct (fs key_path) as [key_data|]; [|discriminate].
  destruct (len key_data =? 32) eqn:Hlen; cbn [negb]; [|discriminate].
  apply Z.eqb_eq in Hlen.
  rewrite unpack_le32_words by (unfold len in Hlen; lia).
  intros Hkey. apply Ok_inj in Hkey. subst key.
  assert (length (map (Spec.le_word key_data) (seq 0 8)) = 8%nat) as Hk
    by (rewrite length_map, length_seq; reflexivity).
  split; [exact Hk|]. split.
  - apply Forall_forall. intros w Hw. apply in_map_iff in Hw.
    destruct Hw as [i [<- _]]. apply le_word_range.
  - intros data. destruct (encrypt_data_blocks data _ Hk) as [c [-> [_ Hdec]]].
    exact Hdec.
Qed.

Lemma loaded_key_works_witness :
  Lab3.load_key ones_fs String.EmptyString = Ok (repeat 16843009 8) /\
  length (repeat 16843009 8) = 8%nat.
Proof.
  assert (Lab3.load_key ones_fs String.EmptyString = Ok (repeat 16843009 8)) as Hload
    by reflexivity.
  split; [exact Hload|].
  exact (proj1 (loaded_key_works ones_fs String.EmptyString _ Hload)).
Defined.

Lemma decrypted_blocks (data : bytes) (key : list Z) :
  length key = 8%nat -> len data mod 8 = 0 ->
  exists out, Lab3.join_blocks Lab3.gost_decrypt_block data key = Ok out /\
              len out = len data.
Proof.
  intros Hkey Hmod.
  destruct (decrypt_blocks_from key (length data) Hkey [] data (Nat.le_refl _))
    as [_ Hgood].
  cbn [app] in Hgood. change (len []) with 0 in Hgood.
  destruct (Hgood Hmod) as [outs [Hrun Hlen]].
  exists (concat outs). split; [|exact Hlen].
  unfold Lab3.join_blocks, range_step. cbn [Z.leb Z.compare].
  unfold len at 1. rewrite Nat2Z.id, Hrun. reflexivity.
Qed.

(** X19: the outcomes of [decrypt_file] on a ciphertext of whole blocks,
    with an eight-word key.  The empty ciphertext raises [IndexError]; a
    non-empty one either raises [ValueError], the padding check having
    failed, or gives a plaintext strictly shorter than the ciphertext. *)
Theorem decrypt_data_outcomes (c : bytes) (key : list Z) :
  length key = 8%nat -> len c mod 8 = 0 ->
  (c = [] -> Lab3.decrypt_data c key = Raise IndexError) /\
  (c <> [] ->
   Lab3.decrypt_data c key = Raise ValueError \/
   exists out, Lab3.decrypt_data c key = Ok out /\ len out < len c).
Proof.
  intros Hkey Hmod. split; [intros ->; reflexivity|]. intros Hne.
  destruct (decrypted_blocks c key Hkey Hmod) as [d [Hjoin Hlen]].
  unfold Lab3.decrypt_data. rewrite Hjoin. cbn [bind]. rewrite <- Hlen.
  assert (d <> []) as Hd.
  { intros ->. change (len []) with 0 in Hlen. destruct c; [contradiction|].
    unfold len in Hlen. cbn [length] in Hlen. lia. }
  destruct (exists_last Hd) as [init [b ->]].
  destruct (Z.eq_dec (int_of_byte b) 0) as [Hzero | Hpos].
  - apply int_of_byte_zero in Hzero. subst b.
    destruct (pkcs7_unpad_zero_tail init) as [-> | ->].
    + right. exists []. split; [reflexivity|].
      rewrite len_app. unfold len. cbn [length]. lia.
    + left. reflexivity.
  - pose proof (int_of_byte_range b) as Hb.
    rewrite pkcs7_unpad_cases by lia.
    destruct (_ || _); [left; reflexivity|]. right. eexists. split; [reflexivity|].
    unfold len. rewrite length_firstn, length_app. cbn [length]. lia.
Qed.

Lemma decrypt_data_outcomes_witness :
  length (repeat 0 8) = 8%nat /\ len (@nil Byte.byte) mod 8 = 0 /\
  Lab3.decrypt_data [] (repeat 0 8) = Raise IndexError.
Proof.
  split; [reflexivity|]. split; [reflexivity|].
  exact (proj1 (decrypt_data_outcomes [] (repeat 0 8) eq_refl eq_refl) eq_refl).
Defined.

Lemma chunks_fuel (fuel1 : nat) :
  forall fuel2 data, (length data <= fuel1)%nat -> (length data <= fuel2)%nat ->
    Pure.chunks fuel1 data = Pure.chunks fuel2 data.
Proof.
  induction fuel1 as [|fuel1 IH]; intros fuel2 data H1 H2.
  - destruct data; [destruct fuel2; reflexivity | cbn [length] in H1; lia].
  - destruct data as [|b data']; [destruct fuel2; reflexivity|].
    destruct fuel2 as [|fuel2]; [cbn [length] in H2; lia|].
    cbn [Pure.chunks]. f_equal.
    apply IH; rewrite length_skipn; cbn [length] in *; lia.
Qed.

Lemma chunks_prefix (blocks : list bytes) (tail : bytes) :
  Forall (fun block => length block = 8%nat) blocks ->
  forall fuel, (length (concat blocks ++ tail) <= fuel)%nat ->
    Pure.chunks fuel (concat blocks ++ tail) = blocks ++ Pure.chunks fuel tail.
Proof.
  induction 1 as [|block blocks Hblock _ IH]; intros fuel Hfuel; [reflexivity|].
  cbn [concat] in *. rewrite <- app_assoc in *.
  rewrite length_app, Hblock in Hfuel.
  destruct fuel as [|fuel]; [lia|]. cbn [Pure.chunks].
  destruct (block ++ concat blocks ++ tail) as [|q rest] eqn:Hdata.
  - apply (f_equal (@length _)) in Hdata. rewrite length_app, Hblock in Hdata.
    discriminate Hdata.
  - rewrite <- Hdata, firstn_app, skipn_app, Hblock, Nat.sub_diag.
    rewrite (firstn_all2 (n := 8) block), (skipn_all2 (n := 8) block) by lia.
    cbn [firstn skipn app]. rewrite app_nil_r, IH by lia.
    rewrite (chunks_fuel fuel (S fuel) tail); [reflexivity| |];
      rewrite length_app in Hfuel; lia.
Qed.

(** X20: the blocks are encrypted independently of each other.  With an
    eight-word key, the ciphertext of whole blocks [pre] followed by
    [rest] is the blocks of [pre] encrypted one by one, followed by the
    ciphertext of [rest] alone; equal plaintext blocks thus give equal
    ciphertext blocks wherever they stand. *)
Theorem encrypt_data_blockwise (pre rest : bytes) (key : list Z) :
  length key = 8%nat -> len pre mod 8 = 0 ->
  exists cpre crest,
    Lab3.join_blocks Lab3.gost_encrypt_block pre key = Ok cpre /\
    len cpre = len pre /\
    Lab3.encrypt_data rest key = Ok crest /\
    Lab3.encrypt_data (pre ++ rest) key = Ok (cpre ++ crest).
Proof.
  intros Hkey Hpre.
  destruct (chunks_aligned (length pre) pre (Nat.le_refl _) Hpre) as [Hall Hcat].
  set (blocks := Pure.chunks (length pre) pre) in *.
  destruct (gost_blocks_undo blocks key Hkey Hall) as [outs [Henc [Hall' [Hcount _]]]].
  assert (0 <= len rest mod 8 < 8) as Hm by (apply Z.mod_pos_bound; lia).
  set (p := 8 - len rest mod 8) in *.
  set (padded := rest ++ repeat (byte_of_int p) (Z.to_nat p)).
  assert (Lab3.pkcs7_pad rest 8 = Ok padded) as Hpad by apply pkcs7_pad_default.
  assert (Lab3.pkcs7_pad (pre ++ rest) 8 = Ok (pre ++ padded)) as Hpad'.
  { rewrite pkcs7_pad_default, len_app, <- Zplus_mod_idemp_l, Hpre.
    cbn [Z.add]. fold p. unfold padded. rewrite app_assoc. reflexivity. }
  destruct (encrypt_data_blocks rest key Hkey) as [crest [Hrest _]].
  exists (concat outs), crest.
  split; [rewrite join_blocks_chunks; fold blocks; rewrite Henc; reflexivity|].
  split.
  { unfold len. rewrite (concat_blocks_length outs Hall'), Hcount.
    rewrite <- (concat_blocks_length blocks Hall), Hcat. reflexivity. }
  split; [exact Hrest|].
  unfold Lab3.encrypt_data in *. rewrite Hpad in Hrest. rewrite Hpad'.
  cbn [bind] in *. rewrite join_blocks_chunks in *.
  assert (Pure.chunks (length (pre ++ padded)) (pre ++ padded)
          = blocks ++ Pure.chunks (length padded) padded) as ->.
  { rewrite <- Hcat at 2.
    rewrite (chunks_prefix blocks padded Hall) by (rewrite Hcat; apply Nat.le_refl).
    f_equal. apply chunks_fuel; rewrite ?length_app; lia. }
  rewrite map_each_app, Henc. cbn [bind].
  destruct (map_each _ (Pure.chunks (length padded) padded)) as [outs'|e];
    cbn [bind] in *; [|discriminate].
  apply Ok_inj in Hrest. subst crest. rewrite concat_app. reflexivity.
Qed.

Lemma encrypt_data_blockwise_witness :
  length (repeat 3 8) = 8%nat /\ len (repeat Byte.x61 8) mod 8 = 0 /\
  exists cpre crest,
    Lab3.join_blocks Lab3.gost_encrypt_block (repeat Byte.x61 8) (repeat 3 8) = Ok cpre /\
    len cpre = len (repeat Byte.x61 8) /\
    Lab3.encrypt_data [Byte.x62] (repeat 3 8) = Ok crest /\
    Lab3.encrypt_data (repeat Byte.x61 8 ++ [Byte.x62]) (repeat 3 8) = Ok (cpre ++ crest).
Proof.
  split; [reflexivity|]. split; [reflexivity|].
  exact (encrypt_data_blockwise (repeat Byte.x61 8) [Byte.x62] (repeat 3 8)
                                eq_refl eq_refl).
Defined.

(** ** lab2: what happens to a text of whole blocks *)

(** X21: a text whose UTF-8 form fills whole blocks and ends in a byte [q]
    below 8 does not come back, under any key.  With [q = 0] the result is
    the empty text; with [1 <= q < 8] it is the decoding of the form
    without its last [q] bytes (an error when that cuts a character). *)
Theorem aligned_text_is_cut (text : str) (key : Z) (init : bytes) (b : Byte.byte) :
  utf8_encode text = Ok (init ++ [b]) -> len (init ++ [b]) mod 8 = 0 ->
  let q := int_of_byte b in
  let back := (encrypted <- Lab2.encrypt_text text key ;;
               Lab2.decrypt_text encrypted key) in
  (q = 0 -> back = Ok []) /\
  (1 <= q < 8 ->
   back = utf8_decode (firstn (length (init ++ [b]) - Z.to_nat q) (init ++ [b]))).
Proof.
  intros Henc Hal q back.
  assert (back = (stripped <- Lab2.strip_bytes (init ++ [b]) 8 ;;
                  utf8_decode stripped)) as ->.
  { unfold back. rewrite text_pipeline.
    unfold Lab2.text_to_blocks, Lab2.blocks_to_text. rewrite Henc. cbn [bind].
    rewrite pad_bytes_aligned by exact Hal. cbn [bind].
    destruct (blocks_of_bytes _ Hal) as [blocks [-> Hback]]. cbn [bind].
    rewrite Hback. reflexivity. }
  unfold Lab2.strip_bytes. rewrite item_last. cbn [bind]. fold q. split.
  - intros ->. cbn [Z.ltb Z.compare Z.opp]. unfold slice_to, clamp.
    cbn [Z.ltb Z.compare].
    pose proof (len_nonneg (init ++ [b])) as Hnn.
    replace (Z.to_nat (Z.min 0 (len (init ++ [b])))) with 0%nat by lia.
    reflexivity.
  - intros Hq. replace (q <? 8) with true by (symmetry; apply Z.ltb_lt; lia).
    cbn [bind]. unfold slice_to, len. rewrite clamp_from_end by lia. reflexivity.
Qed.

Lemma aligned_text_is_cut_witness :
  utf8_encode abcdefg_soh
  = Ok (map byte_of_int [97; 98; 99; 100; 101; 102; 103] ++ [Byte.x01]) /\
  len (map byte_of_int [97; 98; 99; 100; 101; 102; 103] ++ [Byte.x01]) mod 8 = 0 /\
  (encrypted <- Lab2.encrypt_text abcdefg_soh 9 ;; Lab2.decrypt_text encrypted 9)
  = utf8_decode (map byte_of_int [97; 98; 99; 100; 101; 102; 103]).
Proof.
  assert (utf8_encode abcdefg_soh
          = Ok (map byte_of_int [97; 98; 99; 100; 101; 102; 103] ++ [Byte.x01]))
    as Henc by reflexivity.
  split; [exact Henc|]. split; [reflexivity|].
  apply (proj2 (aligned_text_is_cut abcdefg_soh 9 _ Byte.x01 Henc eq_refl)).
  change (1 <= 1 < 8). lia.
Defined.

(** ** Runs of the statements that split into cases *)

Lemma generate_round_keys_rounds_witness :
  66 <= 66 /\ Lab2.generate_round_keys 5 66 = Raise ValueError.
Proof.
  split; [lia|]. exact (proj2 (generate_round_keys_rounds 5 66) ltac:(lia)).
Defined.

Lemma pkcs7_pad_block_sizes_witness :
  -8 < 0 /\ Lab3.pkcs7_pad [Byte.x61] (-8) = Ok [Byte.x61].
Proof.
  split; [lia|].
  exact (proj1 (proj2 (pkcs7_pad_block_sizes [Byte.x61] (-8))) ltac:(lia)).
Defined.

Lemma pkcs7_unpad_zero_last_witness :
  Forall (eq Byte.x00) [Byte.x00; Byte.x00] /\
  Lab3.pkcs7_unpad ([Byte.x00; Byte.x00] ++ [Byte.x00]) = Ok [].
Proof.
  assert (Forall (eq Byte.x00) [Byte.x00; Byte.x00]) as Hzero
    by (repeat constructor).
  split; [exact Hzero|].
  exact (proj1 (pkcs7_unpad_zero_last [Byte.x00; Byte.x00]) Hzero).
Defined.
